(** * Spotify Downloader: the batch-download orchestrator of [main.py]

  A shallow embedding of the download paths of [SpotifyDownloader]:
  - the batch path: [batch_download_worker] with its closure
    [download_single];
  - the single-URL path: [download_worker] with [download_single_song];
  - the commands [start_url_download], [download_liked_songs],
    [cancel_download] and the terminal callback [download_complete].

  Text is modelled by [string]: a Python [str] restricted to the code
  points below 256, one [ascii] per code point.  External processes are
  modelled by what the application observes of them: the lines they
  print, their exit status, and the value of [self.is_downloading] at
  the moments the application could read it.  The worker functions with
  their thread pools are modelled as an interleaving of the steps of
  the worker, of the pool threads, of the processes and of the main
  thread ([Dispatcher.step]). *)

From Stdlib Require Import String Ascii List Arith ZArith Lia Bool.
From Stdlib Require Import DecimalString.
Import ListNotations.
Open Scope list_scope.
Open Scope string_scope.
Open Scope nat_scope.

(** ** Python [str] operations used by the source *)

Module PyStr.

(** [needle in hay] *)
Fixpoint contains (needle hay : string) : bool :=
  if String.prefix needle hay then true
  else match hay with
       | EmptyString => false
       | String _ rest => contains needle rest
       end.

(** [str.lower] on one code point below 256: the ASCII capitals and the
    Latin-1 capitals U+00C0..U+00DE except U+00D7 move up by 32. *)
Definition lower_char (c : ascii) : ascii :=
  let n := nat_of_ascii c in
  if ((65 <=? n) && (n <=? 90))
     || ((192 <=? n) && (n <=? 222) && negb (n =? 215))
  then ascii_of_nat (n + 32)
  else c.

Fixpoint lower (s : string) : string :=
  match s with
  | EmptyString => EmptyString
  | String c rest => String (lower_char c) (lower rest)
  end.

(** The code points [str.strip] removes: those with [str.isspace]. *)
Definition is_space (c : ascii) : bool :=
  let n := nat_of_ascii c in
  ((9 <=? n) && (n <=? 13)) || ((28 <=? n) && (n <=? 32))
  || (n =? 133) || (n =? 160).

Fixpoint lstrip (s : string) : string :=
  match s with
  | EmptyString => EmptyString
  | String c rest => if is_space c then lstrip rest else s
  end.

Fixpoint rstrip (s : string) : string :=
  match s with
  | EmptyString => EmptyString
  | String c rest =>
      match rstrip rest with
      | EmptyString => if is_space c then EmptyString
                       else String c EmptyString
      | r => String c r
      end
  end.

Definition strip (s : string) : string := rstrip (lstrip s).

(** [s.split(sep)[0]] for a one-character separator. *)
Fixpoint split_head (sep : ascii) (s : string) : string :=
  match s with
  | EmptyString => EmptyString
  | String c rest =>
      if Ascii.eqb c sep then EmptyString
      else String c (split_head sep rest)
  end.

(** [str(n)] for a non-negative [int]. *)
Definition str_of_nat (n : nat) : string :=
  NilZero.string_of_uint (Nat.to_uint n).

(** Truthiness of a [str]. *)
Definition truthy (s : string) : bool :=
  match s with EmptyString => false | _ => true end.

End PyStr.

(** ** The two regular expressions of the adapter *)

Module Re.

Definition dquote : ascii := ascii_of_nat 34.
Definition esc : ascii := ascii_of_nat 27.

(** The longest prefix without a double quote, and what follows it. *)
Fixpoint span_unquoted (s : string) : string * string :=
  match s with
  | EmptyString => (EmptyString, EmptyString)
  | String c rest =>
      if Ascii.eqb c dquote then (EmptyString, s)
      else let (run, tl) := span_unquoted rest in (String c run, tl)
  end.

(** One or more characters other than the double quote, then a double
    quote, matched at the head of [s]: the group, when it matches. *)
Definition group_at (s : string) : option string :=
  match span_unquoted s with
  | (String c run, String _ _) => Some (String c run)
  | _ => None
  end.

(** [re.search] for a double quote, a group of one or more characters
    other than the double quote, and a double quote: group 1 of the
    leftmost match. *)
Fixpoint search_quoted (s : string) : option string :=
  match s with
  | EmptyString => None
  | String c rest =>
      if Ascii.eqb c dquote then
        match group_at rest with
        | Some g => Some g
        | None => search_quoted rest
        end
      else search_quoted rest
  end.

Definition is_sgr_param (c : ascii) : bool :=
  let n := nat_of_ascii c in
  ((48 <=? n) && (n <=? 57)) || (n =? 59).

(** Length of [[0-9;]*m] at the head of [s], when it matches. *)
Fixpoint sgr_params_len (s : string) : option nat :=
  match s with
  | EmptyString => None
  | String c rest =>
      if Ascii.eqb c "m"%char then Some 1
      else if is_sgr_param c then option_map S (sgr_params_len rest)
      else None
  end.

(** Length of [\[[0-9;]*m] at the head of [s], when it matches. *)
Definition sgr_tail_len (s : string) : option nat :=
  match s with
  | String "["%char rest => option_map S (sgr_params_len rest)
  | _ => None
  end.

(** [re.sub(r'\x1b\[[0-9;]*m', '', s)]; [skip] counts the characters
    of the current match that are still to be dropped. *)
Fixpoint sub_ansi_from (skip : nat) (s : string) : string :=
  match s with
  | EmptyString => EmptyString
  | String c rest =>
      match skip with
      | S k => sub_ansi_from k rest
      | O =>
          if Ascii.eqb c esc then
            match sgr_tail_len rest with
            | Some n => sub_ansi_from n rest
            | None => String c (sub_ansi_from O rest)
            end
          else String c (sub_ansi_from O rest)
      end
  end.

Definition sub_ansi (s : string) : string := sub_ansi_from 0 s.

(** The class [[\x00-\x1f\x7f-\x9f]]. *)
Definition is_control (c : ascii) : bool :=
  let n := nat_of_ascii c in
  (n <=? 31) || ((127 <=? n) && (n <=? 159)).

(** [re.sub(r'[\x00-\x1f\x7f-\x9f]', '', s)] *)
Fixpoint sub_control (s : string) : string :=
  match s with
  | EmptyString => EmptyString
  | String c rest =>
      if is_control c then sub_control rest
      else String c (sub_control rest)
  end.

End Re.

(** ** The external invocation adapter *)

Module Adapter.

(** What one batch reads from the application object before it starts:
    [sys.executable], [self.output_folder.get()],
    [self.audio_format.get()] and [self.worker_count.get()]. *)
Record config := {
  sys_executable : string;
  output_folder : string;
  audio_format : string;
  worker_count : nat
}.

(** *** External processes, as the application observes them *)

Inductive stream := Stdout | Stderr.

(** One line printed by a process; [still_downloading] is the value of
    [self.is_downloading] when the application has read the line. *)
Record chunk := {
  text : string;
  on : stream;
  still_downloading : bool
}.

(** Starting a command either raises ([subprocess.run] or
    [subprocess.Popen] fails with the given message) or runs a process
    that prints [out] and leaves with [returncode]. *)
Inductive process :=
| SpawnFails (msg : string)
| Runs (out : list chunk) (returncode : Z).

Definition command := list string.

(** The environment: what starting each command leads to. *)
Definition world := command -> process.

Inductive event :=
| Run (cmd : command)
| Terminate (cmd : command).

Fixpoint captured (s : stream) (out : list chunk) : string :=
  match out with
  | [] => EmptyString
  | c :: rest =>
      match s, on c with
      | Stdout, Stdout | Stderr, Stderr => text c ++ captured s rest
      | _, _ => captured s rest
      end
  end.

(** *** Dialect detection (lines 1066-1075 and 1193-1201) *)

Definition version_cmd (cfg : config) : command :=
  [sys_executable cfg; "-m"; "spotdl"; "--version"].

Definition detect_is_v4 (ver_check : process) : bool :=
  match ver_check with
  | Runs out _ =>
      PyStr.contains "4." (captured Stdout out ++ captured Stderr out)
  | SpawnFails _ => false
  end.

Inductive Dialect := Legacy | Current.

Definition dialect_of (is_v4 : bool) : Dialect :=
  if is_v4 then Current else Legacy.

(** *** Command construction (lines 1091-1105 and 1203-1219) *)

(** [os.path.join folder name] for a relative [name], POSIX flavour. *)
Fixpoint ends_with_slash (s : string) : bool :=
  match s with
  | EmptyString => false
  | String c EmptyString => Ascii.eqb c "/"%char
  | String _ rest => ends_with_slash rest
  end.

Definition os_path_join (folder name : string) : string :=
  match folder with
  | EmptyString => name
  | _ => if ends_with_slash folder then folder ++ name
         else folder ++ "/" ++ name
  end.

Definition cmd_v4 (cfg : config) (url : string) : command :=
  [sys_executable cfg; "-m"; "spotdl";
   "download"; url;
   "--output";
   os_path_join (output_folder cfg) "{artist} - {title}.{output-ext}";
   "--format"; audio_format cfg].

Definition cmd_v3 (cfg : config) (url : string) : command :=
  [sys_executable cfg; "-m"; "spotdl";
   url;
   "--output"; output_folder cfg;
   "--output-format"; audio_format cfg;
   "--path-template"; "{artist} - {title}.{ext}"].

Definition build_cmd (is_v4 : bool) (cfg : config) (url : string)
  : command :=
  if is_v4 then cmd_v4 cfg url else cmd_v3 cfg url.

(** *** The batch path: [download_single] (lines 1086-1130) *)

Inductive tag := downloaded | skipped | error | cancelled.

(** The pair [result, info] returned by [download_single]. *)
Definition result : Type := tag * option string.

(** Lines 1117-1128: the classification of a finished process. *)
Definition classify (output : string) (returncode : Z) : result :=
  let lower := PyStr.lower output in
  if PyStr.contains "already downloaded" lower
     || PyStr.contains "skipping" lower
     || (PyStr.contains "oserror" lower
         && PyStr.contains "already downloaded" lower)
  then (skipped, None)
  else if PyStr.contains "could not match" lower
          || PyStr.contains "lookuperror" lower
  then (error,
        Some match Re.search_quoted output with
             | Some g => g
             | None => "Unknown"
             end)
  else if (returncode =? 0)%Z then (downloaded, None)
  else (error, None).

Definition download_single (cfg : config) (is_v4 : bool) (w : world)
    (is_downloading : bool) (url : string) : list event * result :=
  if negb is_downloading then ([], (cancelled, None))
  else
    let cmd := build_cmd is_v4 cfg url in
    match w cmd with
    | Runs out returncode =>
        ([Run cmd],
         classify (captured Stdout out ++ captured Stderr out) returncode)
    | SpawnFails _ => ([Run cmd], (error, None))
    end.

(** *** The single-URL path: [download_single_song] (lines 1185-1263) *)

(** [success or skipped] is [None], [False] or [True]; [result_msg] is
    [None] or a [str]. *)
Definition song_result : Type := option bool * option string.

(** Lines 1236-1241: the lines read until the flag is found cleared. *)
Fixpoint read_lines (out : list chunk) : option (list string) :=
  match out with
  | [] => Some []
  | c :: rest =>
      if negb (still_downloading c) then None
      else option_map (cons (text c)) (read_lines rest)
  end.

Definition clean_line (line : string) : string :=
  PyStr.strip (Re.sub_control (Re.sub_ansi line)).

Definition keywords : list string :=
  ["downloaded"; "skipping"; "already exists"; "error"; "lookuperror"].

(** Lines 1246-1254. *)
Fixpoint find_result_msg (output_lines : list string) : option string :=
  match output_lines with
  | [] => None
  | line :: rest =>
      let clean := clean_line line in
      if PyStr.truthy clean && (String.length clean <? 200)
         && existsb (fun x => PyStr.contains x (PyStr.lower clean))
                    keywords
      then Some clean
      else find_result_msg rest
  end.

(** Lines 1257-1260. *)
Definition song_verdict (output_lines : list string) (returncode : Z)
  : song_result :=
  let result_msg := find_result_msg output_lines in
  let success := (returncode =? 0)%Z in
  let skipped :=
    option_map (fun m => PyStr.contains "skipping" (PyStr.lower m))
               result_msg in
  (if success then Some true else skipped, result_msg).

Definition download_single_song (cfg : config) (w : world)
    (is_downloading : bool) (url : string) : list event * song_result :=
  if negb is_downloading then ([], (None, None))
  else
    let is_v4 := detect_is_v4 (w (version_cmd cfg)) in
    let cmd := build_cmd is_v4 cfg url in
    match w cmd with
    | SpawnFails msg =>
        ([Run (version_cmd cfg); Run cmd], (Some false, Some msg))
    | Runs out returncode =>
        match read_lines out with
        | None =>
            ([Run (version_cmd cfg); Run cmd; Terminate cmd],
             (None, None))
        | Some output_lines =>
            ([Run (version_cmd cfg); Run cmd],
             song_verdict output_lines returncode)
        end
    end.

(** *** The outcomes of the specification, read off the code's results *)

Inductive Outcome :=
| Downloaded
| Skipped
| NotFound (detail : string)
| Cancelled
| Failed.

Definition outcome_of (r : result) : Outcome :=
  match r with
  | (downloaded, _) => Downloaded
  | (skipped, _) => Skipped
  | (error, Some detail) => NotFound detail
  | (error, None) => Failed
  | (cancelled, _) => Cancelled
  end.

End Adapter.

(** ** The work dispatcher *)

Module Dispatcher.

(** How the [as_completed] loop was left. *)
Inductive ending := LoopEnd | CancelSeen.

(** Where the worker function is: in the [as_completed] loop, leaving
    the [with ThreadPoolExecutor(...)] block (its exit joins the pool),
    or returned. *)
Inductive phase :=
| Draining
| Exiting (how : ending)
| Returned (how : ending).

(** Where one call of an adapter is. *)
Inductive stage :=
| Called      (* a pool thread has entered the call; the flag is not read yet *)
| Checked     (* the flag was read and found set; nothing is started yet *)
| Probing     (* [download_single_song]: the version query is running *)
| Built       (* [download_single_song]: the query is over, the command built *)
| Started.    (* the download process is running *)

(** The external processes a call in that stage has started and not yet
    waited for. *)
Definition holds (g : stage) : nat :=
  match g with
  | Probing | Started => 1
  | Called | Checked | Built => 0
  end.

Definition held (calls : list (string * stage)) : nat :=
  list_sum (map (fun t => holds (snd t)) calls).

(** The processes the calls in progress can still start, a call in
    stage [g] being good for [budget g] of them. *)
Definition may_start (budget : stage -> nat)
    (calls : list (string * stage)) : nat :=
  list_sum (map (fun t => budget (snd t)) calls).

(** The pool of [ThreadPoolExecutor(max_workers=...)] together with the
    loop that drains it, for either worker function, as an interleaving
    of the worker function, the pool threads, the external processes and
    the main thread.  The executor is modelled as documented for
    [concurrent.futures]: at most [max_workers] threads, each running
    one submitted call at a time, taken in submission order;
    [shutdown(cancel_futures=True)] cancels the calls no thread has
    taken; leaving the [with] block joins the threads; [as_completed]
    yields every finished future once, in any order. *)
Section Pool.

Variable max_workers : nat.
(** What the adapter returns for one item. *)
Variable result : Type.
(** One step of a call of the adapter, given the value of the flag at
    that moment: the call moves to another stage, or returns a result;
    the boolean tells whether it returns without having waited for a
    process it has started. *)
Variable adapter : bool -> stage -> stage + result * bool -> Prop.

Record state := mk_state {
  is_downloading : bool;             (* self.is_downloading *)
  pending : list string;             (* submitted, not yet taken by a thread *)
  running : list (string * stage);   (* calls of the adapter in progress *)
  orphans : nat;                     (* processes left by calls that returned *)
  ready : list result;               (* finished, not yet yielded by the loop *)
  drained : list result;             (* yielded and recorded, oldest first *)
  spawned : nat;                     (* external processes started so far *)
  pc : phase
}.

(** The external processes of the batch that are alive. *)
Definition live (s : state) : nat := held (running s) + orphans s.

(** The calls of the adapter entered so far. *)
Definition entered (s : state) : nat :=
  List.length (running s) + List.length (ready s)
  + List.length (drained s).

(** Every url is submitted before the loop starts (lines 1136, 1284);
    the thread was started with the flag set (lines 1034, 1042, 1052). *)
Definition init (urls : list string) : state :=
  mk_state true urls [] 0 [] [] 0 Draining.

Inductive step : state -> state -> Prop :=
(* the main thread clears the flag: cancel_download (line 1352), or the
   download_complete of another worker (line 1337) *)
| step_cancel f p r o rd d sp ph :
    step (mk_state f p r o rd d sp ph)
         (mk_state false p r o rd d sp ph)
(* the main thread sets the flag: set_downloading_state(True) of another
   session (lines 997, 1034, 1042, 1052); nothing makes it wait for this
   worker, since cancel_download leaves the liked-songs button as it is *)
| step_new_session f p r o rd d sp ph :
    step (mk_state f p r o rd d sp ph)
         (mk_state true p r o rd d sp ph)
(* a free pool thread takes the next item and enters the adapter *)
| step_take f u p r o rd d sp ph :
    List.length r < max_workers ->
    step (mk_state f (u :: p) r o rd d sp ph)
         (mk_state f p (r ++ [(u, Called)]) o rd d sp ph)
(* a call of the adapter moves on; it has started a process when it
   holds one that it did not hold before *)
| step_call f p r1 u g r2 o rd d sp ph g' :
    adapter f g (inl g') ->
    step (mk_state f p (r1 ++ (u, g) :: r2) o rd d sp ph)
         (mk_state f p (r1 ++ (u, g') :: r2) o rd d
                   (sp + (holds g' - holds g)) ph)
(* a call of the adapter returns; its future is finished *)
| step_finish f p r1 u g r2 o rd d sp ph res left :
    adapter f g (inr (res, left)) ->
    step (mk_state f p (r1 ++ (u, g) :: r2) o rd d sp ph)
         (mk_state f p (r1 ++ r2) (o + (if left then 1 else 0))
                   (rd ++ [res]) d sp ph)
(* a process nobody waits for comes to its end *)
| step_orphan_exits f p r o rd d sp ph :
    step (mk_state f p r (S o) rd d sp ph)
         (mk_state f p r o rd d sp ph)
(* the loop yields a finished future and finds the flag set *)
| step_record p r o rd1 res rd2 d sp :
    step (mk_state true p r o (rd1 ++ res :: rd2) d sp Draining)
         (mk_state true p r o (rd1 ++ rd2) (d ++ [res]) sp Draining)
(* the loop yields a finished future and finds the flag cleared:
   executor.shutdown(wait=False, cancel_futures=True), then the
   return (line 1142) or break (line 1293) *)
| step_observe_cancel p r o rd1 res rd2 d sp :
    step (mk_state false p r o (rd1 ++ res :: rd2) d sp Draining)
         (mk_state false [] r o (rd1 ++ res :: rd2) d sp
                   (Exiting CancelSeen))
(* every future has been yielded: the loop ends *)
| step_loop_end f o d sp :
    step (mk_state f [] [] o [] d sp Draining)
         (mk_state f [] [] o [] d sp (Exiting LoopEnd))
(* the with block is left once the pool threads have been joined *)
| step_return f p o rd d sp how :
    step (mk_state f p [] o rd d sp (Exiting how))
         (mk_state f p [] o rd d sp (Returned how)).

Inductive steps : state -> state -> Prop :=
| steps_refl s : steps s s
| steps_more s1 s2 s3 : steps s1 s2 -> step s2 s3 -> steps s1 s3.

Definition reachable (urls : list string) (s : state) : Prop :=
  steps (init urls) s.

(** A call of the adapter from a stage to its return, the flag taking
    any value on the way. *)
Inductive returns : stage -> result * bool -> Prop :=
| returns_now f g x : adapter f g (inr x) -> returns g x
| returns_later f g g' x :
    adapter f g (inl g') -> returns g' x -> returns g x.

(** The invariant of the pool: what every state of a batch of [n] items
    satisfies. *)
Record pool_inv (n : nat) (s : state) : Prop := mk_pool_inv {
  inv_bound : List.length (running s) <= max_workers;
  inv_total : entered s + List.length (pending s) <= n;
  inv_draining : pc s = Draining -> entered s + List.length (pending s) = n;
  inv_closed : pc s <> Draining -> pending s = [];
  inv_ended :
    pc s = Exiting LoopEnd \/ pc s = Returned LoopEnd ->
    running s = [] /\ ready s = [] /\ List.length (drained s) = n;
  inv_joined : forall how, pc s = Returned how -> running s = [];
  inv_orphans :
    orphans s <= List.length (ready s) + List.length (drained s)
}.

End Pool.

Arguments is_downloading {result} _.
Arguments pending {result} _.
Arguments running {result} _.
Arguments orphans {result} _.
Arguments ready {result} _.
Arguments drained {result} _.
Arguments spawned {result} _.
Arguments pc {result} _.
Arguments live {result} _.
Arguments entered {result} _.

(** *** The batch path: [batch_download_worker] (lines 1058-1183) *)

Import Adapter.

(** One call of [download_single] (lines 1086-1130), step by step.
    [subprocess.run] waits for the process it starts, also when it
    raises: it never returns with the process alive. *)
Inductive single_call : bool -> stage -> stage + result * bool -> Prop :=
(* lines 1088-1089 *)
| single_cancelled :
    single_call false Called (inr ((cancelled, None), false))
| single_checked : single_call true Called (inl Checked)
(* line 1108: the process is started, or starting it raises *)
| single_runs f : single_call f Checked (inl Started)
| single_run_fails f : single_call f Checked (inr ((error, None), false))
(* lines 1117-1128: the process is over and its output classified *)
| single_classified f output returncode :
    single_call f Started (inr (classify output returncode, false))
(* lines 1129-1130: [run] raised after it had ended the process *)
| single_raised f : single_call f Started (inr ((error, None), false)).

(** A call of [download_single] starts one process, after its check. *)
Definition single_budget (g : stage) : nat :=
  match g with
  | Called | Checked => 1
  | Probing | Built | Started => 0
  end.

Definition batch_step (cfg : config) :=
  step (worker_count cfg) result single_call.

Definition batch_steps (cfg : config) :=
  steps (worker_count cfg) result single_call.

Definition batch_reachable (cfg : config) :=
  reachable (worker_count cfg) result single_call.

(** [batch_download_worker] from its first line: the version query
    (lines 1066-1075) runs alone and to its end before the pool is
    created (line 1135). *)
Inductive batch_worker :=
| Query (alive : bool)
| Pool (s : state result).

Inductive batch_worker_step (cfg : config) (urls : list string)
  : batch_worker -> batch_worker -> Prop :=
| query_starts : batch_worker_step cfg urls (Query false) (Query true)
| query_raises :
    batch_worker_step cfg urls (Query false) (Pool (init result urls))
| query_over :
    batch_worker_step cfg urls (Query true) (Pool (init result urls))
| pool_moves s s' :
    batch_step cfg s s' -> batch_worker_step cfg urls (Pool s) (Pool s').

Inductive batch_worker_reachable (cfg : config) (urls : list string)
  : batch_worker -> Prop :=
| worker_called : batch_worker_reachable cfg urls (Query false)
| worker_moves b b' :
    batch_worker_reachable cfg urls b ->
    batch_worker_step cfg urls b b' ->
    batch_worker_reachable cfg urls b'.

(** The external processes of the batch that are alive. *)
Definition batch_live (b : batch_worker) : nat :=
  match b with
  | Query alive => if alive then 1 else 0
  | Pool s => live s
  end.

Record counters := mk_counters {
  n_downloaded : nat;
  n_skipped : nat;
  n_errors : nat;
  n_completed : nat
}.

Definition zero : counters := mk_counters 0 0 0 0.

(** Lines 1146-1153. *)
Definition record (c : counters) (r : result) : counters :=
  let completed := n_completed c + 1 in
  match fst r with
  | downloaded =>
      mk_counters (n_downloaded c + 1) (n_skipped c) (n_errors c) completed
  | skipped =>
      mk_counters (n_downloaded c) (n_skipped c + 1) (n_errors c) completed
  | error =>
      mk_counters (n_downloaded c) (n_skipped c) (n_errors c + 1) completed
  | cancelled =>
      mk_counters (n_downloaded c) (n_skipped c) (n_errors c) completed
  end.

(** The counters after the loop has recorded the given results. *)
Definition tally (recorded : list result) : counters :=
  fold_left record recorded zero.

Definition counted (c : counters) : nat :=
  n_downloaded c + n_skipped c + n_errors c.

(** Lines 1164-1180: the arguments of the final [download_complete]. *)
Definition final_report (c : counters) : bool * string :=
  let downloaded := n_downloaded c in
  let skipped := n_skipped c in
  let errors := n_errors c in
  if (0 <? downloaded) || (0 <? skipped) then
    let msg :=
      if (0 <? downloaded) && (0 <? skipped) then
        "Done! " ++ PyStr.str_of_nat downloaded ++ " downloaded, "
          ++ PyStr.str_of_nat skipped ++ " already existed"
      else if 0 <? downloaded then
        "Downloaded " ++ PyStr.str_of_nat downloaded ++ " songs!"
      else if 0 <? skipped then
        "All " ++ PyStr.str_of_nat skipped ++ " songs already existed"
      else "Download complete" in
    (true,
     if 0 <? errors
     then msg ++ " (" ++ PyStr.str_of_nat errors ++ " failed)"
     else msg)
  else if 0 <? errors then
    (false, PyStr.str_of_nat errors ++ " songs failed to download")
  else (false, "No songs found or downloaded").

(** Line 1141: the arguments of [download_complete] on cancellation. *)
Definition cancel_report : bool * string := (false, "Cancelled").

(** *** The single-URL path: [download_worker] (lines 1265-1326) *)

(** One call of [download_single_song] (lines 1185-1263), step by step.
    The flag is read on entry and once for every line of output; the
    version query is run and waited for in between.  On a cleared flag
    the process is sent [terminate()] and the call returns without
    waiting for it; so does the [except] clause. *)
Inductive song_call : bool -> stage -> stage + song_result * bool -> Prop :=
(* lines 1187-1188 *)
| song_cancelled : song_call false Called (inr ((None, None), false))
| song_checked : song_call true Called (inl Checked)
(* lines 1193-1201: the version query starts, or starting it raises *)
| song_probe f : song_call f Checked (inl Probing)
| song_probe_fails f : song_call f Checked (inl Built)
| song_probe_over f : song_call f Probing (inl Built)
(* lines 1225-1234: Popen, whatever has become of the flag *)
| song_popen f : song_call f Built (inl Started)
| song_popen_fails f msg :
    song_call f Built (inr ((Some false, Some msg), false))
(* lines 1237-1241: one line is read *)
| song_line : song_call true Started (inl Started)
| song_terminated : song_call false Started (inr ((None, None), true))
(* lines 1243-1260: end of the output, wait(), verdict *)
| song_judged f output_lines returncode :
    song_call f Started (inr (song_verdict output_lines returncode, false))
(* lines 1262-1263 *)
| song_raised f msg :
    song_call f Started (inr ((Some false, Some msg), true)).

(** A call of [download_single_song] starts two processes after its
    check: the version query, then the download. *)
Definition song_budget (g : stage) : nat :=
  match g with
  | Called | Checked => 2
  | Probing | Built => 1
  | Started => 0
  end.

(** Line 1278. *)
Definition single_max_workers : nat := 2.

Definition song_step := step single_max_workers song_result song_call.

Definition song_steps := steps single_max_workers song_result song_call.

Definition song_reachable :=
  reachable single_max_workers song_result song_call.

(** The counters of [download_worker]: [processed], [completed]
    (downloaded or skipped) and [skipped]. *)
Record song_counters := mk_song_counters {
  n_processed : nat;
  n_done : nat;
  n_existed : nat
}.

(** Lines 1295-1302. *)
Definition song_record (c : song_counters) (r : song_result)
  : song_counters :=
  match r with
  | (Some true, msg) =>
      mk_song_counters
        (n_processed c + 1) (n_done c + 1)
        (match msg with
         | Some m =>
             if PyStr.truthy m
                && PyStr.contains "skipping" (PyStr.lower m)
             then n_existed c + 1 else n_existed c
         | None => n_existed c
         end)
  | _ => mk_song_counters (n_processed c + 1) (n_done c) (n_existed c)
  end.

Definition song_tally (recorded : list song_result) : song_counters :=
  fold_left song_record recorded (mk_song_counters 0 0 0).

(** Lines 1315-1323: the arguments of the final [download_complete],
    given the flag as read after the pool has been left. *)
Definition song_final_report (is_downloading : bool) (c : song_counters)
  : bool * string :=
  if is_downloading then
    let downloaded := n_done c - n_existed c in
    if 0 <? n_existed c then
      (true,
       "Done! " ++ PyStr.str_of_nat downloaded ++ " downloaded, "
         ++ PyStr.str_of_nat (n_existed c) ++ " already existed")
    else (true, "Downloaded " ++ PyStr.str_of_nat downloaded ++ " songs!")
  else (false, "Cancelled").

End Dispatcher.

(** ** The application object: commands and the terminal callback *)

Module App.

(** The fields of [SpotifyDownloader] the download commands touch;
    a button is [true] when its state is normal. *)
Record app := mk_app {
  is_downloading : bool;
  spotify_client : bool;
  download_btn : bool;
  liked_btn : bool;
  cancel_btn : bool;
  url_entry : string;
  output_folder : string
}.

Inductive target :=
| batch_download_worker (urls : list string)
| download_worker (urls : list string)
| fetch_and_download_liked (limit : Z).

(** The mark [download_complete] puts before the status text. *)
Inductive mark := Plain | Tick | Cross.

Inductive effect :=
| ShowWarning (title message : string)
| ShowError (title message : string)
| ShowInfo (title message : string)
| SetStatus (m : mark) (text : string)
| SetProgress (full : bool)
| Log (message level : string)
| StartThread (t : target).

Definition nl : string := String (ascii_of_nat 10) EmptyString.

(** Lines 1328-1334. *)
Definition set_downloading_state (downloading : bool) (st : app) : app :=
  mk_app downloading
         (spotify_client st)
         (negb downloading)
         (negb (downloading || negb (spotify_client st)))
         downloading
         (url_entry st)
         (output_folder st).

(** Lines 1336-1348. *)
Definition download_complete (success : bool) (message : string)
    (st : app) : app * list effect :=
  let st' := set_downloading_state false st in
  if success then
    (st',
     [SetProgress true;
      SetStatus Tick message;
      Log message "success";
      ShowInfo "Success"
               (message ++ nl ++ nl ++ "Saved to: " ++ output_folder st)])
  else
    (st',
     [SetProgress false;
      SetStatus Cross message;
      Log message "error"]
     ++ (if negb (PyStr.contains "cancel" (PyStr.lower message))
         then [ShowError "Error" message]
         else []))%list.

(** Lines 1350-1353. *)
Definition cancel_download (st : app) : app * list effect :=
  if is_downloading st then
    (mk_app false (spotify_client st) (download_btn st) (liked_btn st)
            (cancel_btn st) (url_entry st) (output_folder st),
     [Log "Cancelling..." "warning"])
  else (st, []).

(** Lines 705-710. *)
Fixpoint drop_prefix (p s : string) : option string :=
  match p, s with
  | EmptyString, _ => Some s
  | String a p', String b s' =>
      if Ascii.eqb a b then drop_prefix p' s' else None
  | String _ _, EmptyString => None
  end.

Definition is_alnum (c : ascii) : bool :=
  let n := nat_of_ascii c in
  ((48 <=? n) && (n <=? 57)) || ((65 <=? n) && (n <=? 90))
  || ((97 <=? n) && (n <=? 122)).

Fixpoint first_kind (kinds : list string) (s : string) : option string :=
  match kinds with
  | [] => None
  | k :: rest =>
      match drop_prefix k s with
      | Some tl => Some tl
      | None => first_kind rest s
      end
  end.

Definition clean_url (url : string) : string :=
  PyStr.split_head "?"%char url.

(** [re.match] of [https?://open\.spotify\.com/] then one of the four
    kinds, a slash and at least one ASCII letter or digit. *)
Definition validate_url (url : string) : bool :=
  match drop_prefix "http" (PyStr.split_head "?"%char url) with
  | None => false
  | Some r1 =>
      let r2 := match drop_prefix "s" r1 with
                | Some r => r
                | None => r1
                end in
      match drop_prefix "://open.spotify.com/" r2 with
      | None => false
      | Some r3 =>
          match first_kind ["track"; "album"; "playlist"; "artist"] r3 with
          | None => false
          | Some r4 =>
              match r4 with
              | String "/"%char (String c _) => is_alnum c
              | _ => false
              end
          end
      end
  end.

(** Lines 1033-1038. *)
Definition start_download (urls : list string) (st : app)
  : app * list effect :=
  (set_downloading_state true st,
   [SetProgress false;
    Log ("Starting download of " ++ PyStr.str_of_nat (List.length urls)
         ++ " song(s)...") "info";
    StartThread (download_worker urls)]).

(** Lines 1040-1048. *)
Definition start_batch_download (url : string) (st : app)
  : app * list effect :=
  let url_type :=
    if PyStr.contains "/playlist/" url then "playlist" else "album" in
  (set_downloading_state true st,
   [SetProgress false;
    Log ("Downloading " ++ url_type ++ "...") "info";
    StartThread (batch_download_worker [url])]).

(** Lines 1050-1056. *)
Definition start_batch_download_urls (urls : list string) (st : app)
  : app * list effect :=
  (set_downloading_state true st,
   [SetProgress false;
    Log ("Downloading " ++ PyStr.str_of_nat (List.length urls)
         ++ " songs...") "info";
    StartThread (batch_download_worker urls)]).

(** Lines 953-970. *)
Definition start_url_download (st : app) : app * list effect :=
  let url := PyStr.strip (url_entry st) in
  if negb (PyStr.truthy url) then
    (st, [ShowWarning "Warning" "Please enter a Spotify URL"])
  else if negb (validate_url url) then
    (st, [ShowError "Error" "Invalid Spotify URL"])
  else
    let clean := clean_url url in
    if PyStr.contains "/playlist/" clean || PyStr.contains "/album/" clean
    then start_batch_download clean st
    else start_download [clean] st.

(** Lines 972-1000; [limit_input] is what the dialog returns and
    [py_int] is Python's [int] on a [str] ([None] for [ValueError]). *)
Definition download_liked_songs (py_int : string -> option Z)
    (limit_input : option string) (st : app) : app * list effect :=
  if negb (spotify_client st) then
    (st, [ShowWarning "Warning" "Please connect Spotify first"])
  else if is_downloading st then (st, [])
  else
    match limit_input with
    | None => (st, [])
    | Some input =>
        if negb (PyStr.truthy input) then (st, [])
        else
          let limit :=
            if String.eqb (PyStr.lower input) "all" then Some 9999%Z
            else py_int input in
          match limit with
          | None => (st, [ShowError "Error" "Enter a valid number"])
          | Some n =>
              (set_downloading_state true st,
               [SetStatus Plain "Fetching liked songs...";
                StartThread (fetch_and_download_liked n)])
          end
    end.

(** Lines 922-949: [update_account_ui] after a login or a logout. *)
Definition update_account_ui (connected : bool) (st : app) : app :=
  mk_app (is_downloading st) connected (download_btn st) connected
         (cancel_btn st) (url_entry st) (output_folder st).

(** *** What can happen to the application object *)

(** A button runs its command only in state normal. *)
Definition click (enabled : bool) (command : app -> app * list effect)
    (st : app) : app * list effect :=
  if enabled then command st else (st, []).

(** The events of the main loop: what the user does, and the callbacks
    the worker threads schedule with [self.after(0, ...)].  A callback
    that raises is reported by Tk and changes nothing. *)
Inductive ui_event :=
| TypeUrl (text : string)
| ClickDownload
| ClickLiked (py_int : string -> option Z) (limit_input : option string)
| ClickCancel
| Login
| Logout
| LikedFetched (urls : list string)
| Completed (success : bool) (message : string)
| CallbackRaised.

Definition handle (e : ui_event) (st : app) : app * list effect :=
  match e with
  | TypeUrl text =>
      (mk_app (is_downloading st) (spotify_client st) (download_btn st)
              (liked_btn st) (cancel_btn st) text (output_folder st), [])
  | ClickDownload => click (download_btn st) start_url_download st
  | ClickLiked py_int limit_input =>
      click (liked_btn st) (download_liked_songs py_int limit_input) st
  | ClickCancel => click (cancel_btn st) cancel_download st
  | Login => (update_account_ui true st, [])
  | Logout => (update_account_ui false st, [Log "Logged out" "info"])
  | LikedFetched urls => start_batch_download_urls urls st
  | Completed success message => download_complete success message st
  | CallbackRaised => (st, [])
  end.

(** The object after [__init__] (line 243; buttons as created). *)
Definition initial (folder : string) : app :=
  mk_app false false true false false EmptyString folder.

Fixpoint run (events : list ui_event) (st : app) : app :=
  match events with
  | [] => st
  | e :: rest => run rest (fst (handle e st))
  end.

Definition dispatches (effects : list effect) : bool :=
  existsb (fun e => match e with StartThread _ => true | _ => false end)
          effects.

End App.

(** ** The external commands of one batch *)

Module Trace.

Import Adapter.

(** The commands one call of [batch_download_worker] starts: the probe
    (lines 1066-1075), then [download_single] for each item a worker
    takes; an item comes with the value its call reads from
    [self.is_downloading] on entry. *)
Definition batch_download_worker (cfg : config) (w : world)
    (items : list (string * bool)) : list event :=
  let is_v4 := detect_is_v4 (w (version_cmd cfg)) in
  Run (version_cmd cfg)
  :: flat_map (fun it => fst (download_single cfg is_v4 w (snd it) (fst it)))
              items.

(** The commands one call of [download_worker] starts:
    [download_single_song] for each item a worker takes. *)
Definition download_worker (cfg : config) (w : world)
    (items : list (string * bool)) : list event :=
  flat_map (fun it => fst (download_single_song cfg w (snd it) (fst it)))
           items.

Definition is_probe (cfg : config) (e : event) : bool :=
  match e with
  | Run cmd =>
      if list_eq_dec string_dec cmd (version_cmd cfg) then true else false
  | Terminate _ => false
  end.

Definition probes (cfg : config) (events : list event) : nat :=
  List.length (filter (is_probe cfg) events).

(** The words of each dialect that the other one does not have
    (lines 1191-1192). *)
Definition current_only : list string := ["download"; "--format"].
Definition legacy_only : list string :=
  ["--output-format"; "--path-template"].

(** A value that is not one of those words. *)
Definition plain (value : string) : bool :=
  negb (existsb (String.eqb value) (current_only ++ legacy_only)%list).

End Trace.

(** ** The specification's wording, for comparison with the code *)

Module Spec.

Import Adapter.

(** Section 4.2, step 5, as worded: strip ANSI escape sequences and
    control characters, then search without regard to case; the detail
    of [NotFound] is the first quoted substring, else empty. *)
Definition classify (output : string) (returncode : Z) : Outcome :=
  let clean := Re.sub_control (Re.sub_ansi output) in
  let lower := PyStr.lower clean in
  if PyStr.contains "already downloaded" lower
     || PyStr.contains "skipping" lower
  then Skipped
  else if PyStr.contains "could not match" lower
          || PyStr.contains "lookuperror" lower
  then NotFound match Re.search_quoted clean with
                | Some g => g
                | None => EmptyString
                end
  else if (returncode =? 0)%Z then Downloaded
  else Failed.

(** Section 4.1, as worded: the probe could not be invoked (tool
    missing) or left with a non-zero exit status. *)
Definition probe_failed (ver_check : process) : Prop :=
  match ver_check with
  | SpawnFails _ => True
  | Runs _ returncode => returncode <> 0%Z
  end.

End Spec.

(** ** Vocabulary of the statements *)

(** The character [a] occurs in [s]. *)
Fixpoint has_char (a : ascii) (s : string) : bool :=
  match s with
  | EmptyString => false
  | String c rest => Ascii.eqb c a || has_char a rest
  end.

(** The two markers of an item that was already there (line 1120). *)
Definition skip_marker (lower : string) : bool :=
  PyStr.contains "already downloaded" lower
  || PyStr.contains "skipping" lower.

(** The two markers of an item that could not be resolved (line 1122). *)
Definition not_found_marker (lower : string) : bool :=
  PyStr.contains "could not match" lower
  || PyStr.contains "lookuperror" lower.


(** Every character of [s] is a decimal digit. *)
Fixpoint digits_only (s : string) : bool :=
  match s with
  | EmptyString => true
  | String c rest =>
      (48 <=? nat_of_ascii c) && (nat_of_ascii c <=? 57) && digits_only rest
  end.

(** The invariant of the application object: while the downloading state
    is set the download button is disabled, and the liked-songs button is
    enabled only with a connected account. *)
Definition buttons_gated (st : App.app) : Prop :=
  (App.is_downloading st = true -> App.download_btn st = false)
  /\ (App.liked_btn st = true -> App.spotify_client st = true).

Definition tag_eqb (a b : Adapter.tag) : bool :=
  match a, b with
  | Adapter.downloaded, Adapter.downloaded
  | Adapter.skipped, Adapter.skipped
  | Adapter.error, Adapter.error
  | Adapter.cancelled, Adapter.cancelled => true
  | _, _ => false
  end.

(** How many of the results carry the tag [t]. *)
Definition count_tag (t : Adapter.tag) (results : list Adapter.result)
  : nat :=
  List.length (filter (fun r => tag_eqb (fst r) t) results).


(** ** Environment bootstrap: worker count and version checks *)

Module Setup.

(** Lines 22-39.  [cpu_count] is [os.cpu_count()]; [total] is
    [psutil.virtual_memory().total] in bytes, [None] when reading it
    raises.  The two float divisions are by powers of two and [int]
    truncates, which is the integer quotient by 2^31 below 2^53 bytes;
    at and above 2^53 bytes both quotients are far beyond the cap. *)
Definition get_optimal_workers (cpu_count : option N) (total : option N)
  : N :=
  match total with
  | None => 4
  | Some total =>
      let cpu_count :=
        match cpu_count with
        | Some 0%N | None => 4%N
        | Some n => n
        end in
      let cpu_based := N.max 2 (cpu_count / 2) in
      let ram_based := N.max 2 (total / 2 ^ 31) in
      N.min (N.min cpu_based ram_based) 8
  end%N.

(** Python's order on tuples of ints: lexicographic, a proper prefix
    coming first. *)
Fixpoint tuple_lt (a b : list N) : bool :=
  match a, b with
  | _, [] => false
  | [], _ :: _ => true
  | x :: a', y :: b' =>
      if (x <? y)%N then true
      else if (y <? x)%N then false
      else tuple_lt a' b'
  end.

Definition tuple_ge (a b : list N) : bool := negb (tuple_lt a b).

Inductive python_verdict := Unstable | TooOld | VersionOk.

(** Lines 55-74: the verdict on [sys.version_info]; its first three
    components are given, the comparisons with pairs never reach the
    others.  Only [TooOld] ends in [sys.exit(1)]. *)
Definition check_python (major minor micro : N) : python_verdict :=
  let version := [major; minor; micro] in
  if tuple_ge version [3; 14]%N then Unstable
  else if tuple_lt version [3; 9]%N then TooOld
  else VersionOk.

Definition is_digit (c : ascii) : bool :=
  (48 <=? nat_of_ascii c) && (nat_of_ascii c <=? 57).

(** The longest prefix of digits, and what follows it. *)
Fixpoint span_digits (s : string) : string * string :=
  match s with
  | EmptyString => (EmptyString, EmptyString)
  | String c rest =>
      if is_digit c then
        let (run, tl) := span_digits rest in (String c run, tl)
      else (EmptyString, s)
  end.

(** Digits, a dot, digits, a dot, digits, matched at the head of [s]. *)
Definition version_at (s : string) : option string :=
  match span_digits s with
  | (String a0 a, String "."%char r1) =>
      match span_digits r1 with
      | (String b0 b, String "."%char r2) =>
          match span_digits r2 with
          | (String c0 c, _) =>
              Some (String a0 a ++ "." ++ String b0 b ++ "."
                    ++ String c0 c)
          | _ => None
          end
      | _ => None
      end
  | _ => None
  end.

(** Line 166: group 1 of the leftmost match of three dotted numbers. *)
Fixpoint search_version (s : string) : option string :=
  match version_at s with
  | Some v => Some v
  | None =>
      match s with
      | EmptyString => None
      | String _ rest => search_version rest
      end
  end.

(** Lines 167-175: what the setup prints about the installed tool, given
    the output of the version query. *)
Inductive announcement :=
| Installed (spotdl_ver : string) (warns_v3 : bool)
| NoVersion.

Definition announce (ver_output : string) : announcement :=
  match search_version ver_output with
  | Some spotdl_ver => Installed spotdl_ver (String.prefix "3." spotdl_ver)
  | None => NoVersion
  end.

End Setup.

(** ** Liked songs: [fetch_and_download_liked] (lines 1002-1031) *)

Module Liked.

(** A call that raises with a message, or returns. *)
Inductive attempt (A : Type) :=
| Raises (msg : string)
| Returns (a : A).

Arguments Raises {A} msg.
Arguments Returns {A} a.

(** [current_user_saved_tracks(limit=50, offset=...)]: the page of items,
    each the result of reading [item['track']['external_urls']['spotify']]. *)
Definition api := nat -> attempt (list (attempt string)).

(** Lines 1013-1018: the loop over the items of one page. *)
Fixpoint take_items (limit : Z) (songs : list string)
    (items : list (attempt string)) : attempt (list string) :=
  match items with
  | [] => Returns songs
  | Raises msg :: _ => Raises msg
  | Returns url :: rest =>
      let songs' := (songs ++ [url])%list in
      if (limit <=? Z.of_nat (List.length songs'))%Z then Returns songs'
      else take_items limit songs' rest
  end.

(** Lines 1007-1021: the [while] loop; [None] when [fuel] iterations
    were not enough. *)
Fixpoint fetch_loop (fuel : nat) (saved_tracks : api) (limit : Z)
    (songs : list string) (offset : nat)
  : option (attempt (list string)) :=
  if (Z.of_nat (List.length songs) <? limit)%Z then
    match fuel with
    | O => None
    | S fuel' =>
        match saved_tracks offset with
        | Raises msg => Some (Raises msg)
        | Returns [] => Some (Returns songs)
        | Returns items =>
            match take_items limit songs items with
            | Raises msg => Some (Raises msg)
            | Returns songs' =>
                fetch_loop fuel' saved_tracks limit songs' (offset + 50)
            end
        end
    end
  else Some (Returns songs).

(** Lines 1023-1031: the callback the thread schedules.  The one of the
    [except] clause (line 1031) is a lambda that refers to [e]; it runs
    in the main loop after the clause has been left, when [e] is unbound
    again, and raises [NameError] before [download_complete] is called. *)
Definition hand_back (fetched : attempt (list string)) : App.ui_event :=
  match fetched with
  | Returns [] => App.Completed false "No liked songs found"
  | Returns songs => App.LikedFetched songs
  | Raises _ => App.CallbackRaised
  end.

Definition fetch_and_download_liked (fuel : nat) (saved_tracks : api)
    (limit : Z) : option App.ui_event :=
  option_map hand_back (fetch_loop fuel saved_tracks limit [] 0).

(** The service over a library of liked songs, newest first: the page at
    [offset] holds the next 50 urls. *)
Definition library_api (library : list string) : api :=
  fun offset => Returns (map Returns (firstn 50 (skipn offset library))).

End Liked.

(** ** The log queue (lines 687-700) *)

Module LogQueue.

(** The sign before a message, by level; a level not in the table gets
    the sign of [info]. *)
Inductive sign := Bullet | Check | Cross | Bang.

Definition prefix_of (level : string) : sign :=
  if String.eqb level "info" then Bullet
  else if String.eqb level "success" then Check
  else if String.eqb level "error" then Cross
  else if String.eqb level "warning" then Bang
  else Bullet.

Record line := mk_line {
  timestamp : string;
  prefix : sign;
  message : string
}.

Record state := mk_state {
  log_queue : list line;
  log_text : list line
}.

(** Lines 687-690; [timestamp] is the clock reading. *)
Definition log (timestamp message level : string) (s : state) : state :=
  mk_state (log_queue s ++ [mk_line timestamp (prefix_of level) message])
           (log_text s).

(** Lines 694-697: one [get_nowait] and [insert] after the other, until
    the queue is empty. *)
Fixpoint drain (queue text : list line) : list line :=
  match queue with
  | [] => text
  | m :: rest => drain rest (text ++ [m])
  end.

Definition process_log_queue (s : state) : state :=
  mk_state [] (drain (log_queue s) (log_text s)).

Inductive op :=
| Log (timestamp message level : string)
| Process.

Definition apply_op (o : op) (s : state) : state :=
  match o with
  | Log timestamp message level => log timestamp message level s
  | Process => process_log_queue s
  end.

(** The lines logged by a sequence of operations, in order. *)
Fixpoint logged (ops : list op) : list line :=
  match ops with
  | [] => []
  | Log timestamp message level :: rest =>
      mk_line timestamp (prefix_of level) message :: logged rest
  | Process :: rest => logged rest
  end.

End LogQueue.

(** ** More vocabulary *)

(** Lines 1152-1155: the warning the batch loop logs for a result. *)
Definition could_not_find (r : Adapter.result) : option string :=
  match r with
  | (Adapter.error, Some info) =>
      if PyStr.truthy info then Some ("Could not find: " ++ info) else None
  | _ => None
  end.

(** No character of [s] is in the class of control characters. *)
Fixpoint no_control (s : string) : bool :=
  match s with
  | EmptyString => true
  | String c rest => negb (Re.is_control c) && no_control rest
  end.

(** Lines 1250-1252: the test a cleaned line passes to be the message. *)
Definition is_message (clean : string) : bool :=
  PyStr.truthy clean && (String.length clean <? 200)
  && existsb (fun x => PyStr.contains x (PyStr.lower clean))
             Adapter.keywords.

(** The buttons of a session: cancel is enabled exactly when download is
    disabled, and it is enabled while the downloading state is set. *)
Definition session_buttons (st : App.app) : Prop :=
  App.cancel_btn st = negb (App.download_btn st)
  /\ (App.is_downloading st = true -> App.cancel_btn st = true).

(** The shape [validate_url] accepts. *)
Definition spotify_shape (s : string) : Prop :=
  exists scheme kind c rest,
    In scheme ["http"; "https"]
    /\ In kind ["track"; "album"; "playlist"; "artist"]
    /\ App.is_alnum c = true
    /\ s = scheme ++ "://open.spotify.com/" ++ kind ++ "/" ++ String c rest.


(** A result [download_worker] counts as completed (line 1298). *)
Definition is_success (r : Adapter.song_result) : bool :=
  match fst r with Some true => true | _ => false end.


(** Every character of [s] is one [str.strip] removes. *)
Fixpoint all_space (s : string) : bool :=
  match s with
  | EmptyString => true
  | String c rest => PyStr.is_space c && all_space rest
  end.

(** Every character of [s] is a digit or a semicolon. *)
Fixpoint all_sgr_params (s : string) : bool :=
  match s with
  | EmptyString => true
  | String c rest => Re.is_sgr_param c && all_sgr_params rest
  end.

(** The entry of the url field replaced by [text]. *)
Definition with_url_entry (text : string) (st : App.app) : App.app :=
  App.mk_app (App.is_downloading st) (App.spotify_client st)
             (App.download_btn st) (App.liked_btn st) (App.cancel_btn st)
             text (App.output_folder st).
(** * Properties *)

(** ** Substring search and the quoted-detail search *)

Lemma prefix_app (p s : string) :
  String.prefix p s = true <-> exists t, s = p ++ t.
Proof.
  revert s. induction p as [|a p IH]; intros [|b s]; simpl.
  - split; [intros _; now exists EmptyString | reflexivity].
  - split; [intros _; now exists (String b s) | reflexivity].
  - split; [discriminate | intros [t Ht]; discriminate].
  - destruct (ascii_dec a b) as [->|Hab].
    + rewrite IH.
      split; intros [t Ht]; exists t; [now subst | now inversion Ht].
    + split; [discriminate | intros [t Ht]; simpl in Ht; congruence].
Qed.

Lemma length_append (s t : string) :
  String.length (s ++ t) = String.length s + String.length t.
Proof. induction s as [|c s IH]; simpl; [reflexivity | now rewrite IH]. Qed.

(** [contains] is Python's [in]: the needle occurs somewhere in the text. *)
Lemma contains_spec (needle hay : string) :
  PyStr.contains needle hay = true <->
  exists pre post, hay = pre ++ needle ++ post.
Proof.
  induction hay as [|c hay IH]; cbn [PyStr.contains].
  - destruct (String.prefix needle EmptyString) eqn:P.
    + apply prefix_app in P as [t Ht]. split; [intros _|reflexivity].
      now exists EmptyString, t.
    + split; [discriminate|]. intros (pre & post & H).
      destruct pre; simpl in H.
      * assert (String.prefix needle EmptyString = true)
          by (apply prefix_app; now exists post).
        congruence.
      * discriminate.
  - destruct (String.prefix needle (String c hay)) eqn:P.
    + apply prefix_app in P as [t Ht]. split; [intros _|reflexivity].
      now exists EmptyString, t.
    + rewrite IH. split.
      * intros (pre & post & ->). now exists (String c pre), post.
      * intros (pre & post & H). destruct pre as [|d pre]; simpl in H.
        -- assert (String.prefix needle (String c hay) = true)
             by (apply prefix_app; now exists post).
           congruence.
        -- inversion H; subst. now exists pre, post.
Qed.

Lemma span_unquoted_spec (s : string) :
  let (run, tl) := Re.span_unquoted s in
  s = run ++ tl
  /\ has_char Re.dquote run = false
  /\ (tl = EmptyString \/ exists t, tl = String Re.dquote t).
Proof.
  induction s as [|c s IH]; simpl.
  - repeat split; auto.
  - destruct (Ascii.eqb c Re.dquote) eqn:E.
    + apply Ascii.eqb_eq in E; subst. repeat split; eauto.
    + destruct (Re.span_unquoted s) as [run tl].
      destruct IH as (-> & Hr & Ht). simpl. rewrite E. repeat split; auto.
Qed.

Lemma group_at_sound (s g : string) :
  Re.group_at s = Some g ->
  g <> EmptyString /\ has_char Re.dquote g = false
  /\ exists post, s = g ++ String Re.dquote post.
Proof.
  unfold Re.group_at. pose proof (span_unquoted_spec s) as H.
  destruct (Re.span_unquoted s) as [run tl].
  destruct H as (-> & Hr & Ht).
  destruct run as [|c run]; [discriminate|].
  destruct tl as [|d tl]; [discriminate|].
  intros [= <-]. repeat split; [discriminate | assumption |].
  destruct Ht as [Ht | [t Ht]]; [discriminate|].
  inversion Ht; subst. now exists t.
Qed.

Lemma span_unquoted_app (g post : string) :
  has_char Re.dquote g = false ->
  Re.span_unquoted (g ++ String Re.dquote post) = (g, String Re.dquote post).
Proof.
  induction g as [|c g IH]; simpl; intros H.
  - reflexivity.
  - apply orb_false_iff in H as [Hc Hg]. rewrite Hc, (IH Hg). reflexivity.
Qed.

Lemma group_at_complete (g post : string) :
  g <> EmptyString -> has_char Re.dquote g = false ->
  Re.group_at (g ++ String Re.dquote post) = Some g.
Proof.
  intros Hne Hg. unfold Re.group_at. rewrite span_unquoted_app by assumption.
  destruct g; [contradiction | reflexivity].
Qed.

(** A result of [search_quoted] is a non-empty run without double quotes
    that stands between two double quotes of the text. *)
Lemma search_quoted_sound (s g : string) :
  Re.search_quoted s = Some g ->
  g <> EmptyString /\ has_char Re.dquote g = false
  /\ exists pre post,
       s = pre ++ String Re.dquote (g ++ String Re.dquote post).
Proof.
  induction s as [|c s IH]; simpl; [discriminate|].
  destruct (Ascii.eqb c Re.dquote) eqn:E.
  - apply Ascii.eqb_eq in E; subst c.
    destruct (Re.group_at s) as [g'|] eqn:G.
    + intros [= <-]. apply group_at_sound in G as (Hne & Hq & post & ->).
      repeat split; auto. now exists EmptyString, post.
    + intros H. destruct (IH H) as (Hne & Hq & pre & post & ->).
      repeat split; auto. now exists (String Re.dquote pre), post.
  - intros H. destruct (IH H) as (Hne & Hq & pre & post & ->).
    repeat split; auto. now exists (String c pre), post.
Qed.

(** When the text holds such a run, [search_quoted] finds one. *)
Lemma search_quoted_complete (pre g post : string) :
  g <> EmptyString -> has_char Re.dquote g = false ->
  Re.search_quoted (pre ++ String Re.dquote (g ++ String Re.dquote post))
  <> None.
Proof.
  intros Hne Hg. induction pre as [|c pre IH]; simpl.
  - rewrite ?Ascii.eqb_refl. rewrite group_at_complete by assumption.
    discriminate.
  - destruct (Ascii.eqb c Re.dquote); [|assumption].
    destruct (Re.group_at _); [discriminate | assumption].
Qed.

(** ** The dialect detector *)

Section Detector.

Import Adapter.

Lemma detect_is_v4_runs (out : list chunk) (returncode : Z) :
  detect_is_v4 (Runs out returncode) = true <->
  exists pre post,
    captured Stdout out ++ captured Stderr out = pre ++ "4." ++ post.
Proof. apply contains_spec. Qed.

Lemma dialect_of_current (is_v4 : bool) :
  dialect_of is_v4 = Current <-> is_v4 = true.
Proof. destruct is_v4; simpl; split; congruence. Qed.

(** C10. The detector selects the Current dialect exactly when the
    probe ran and the text "4." occurs somewhere in its standard output
    followed by its standard error; so the probe output of a 3.4.2 tool
    selects Current, and [download_single_song] then runs the Current
    command. *)
Theorem C10_current_iff_marker_anywhere :
  (forall ver_check : process,
      dialect_of (detect_is_v4 ver_check) = Current <->
      exists out returncode pre post,
        ver_check = Runs out returncode
        /\ captured Stdout out ++ captured Stderr out
           = pre ++ "4." ++ post)
  /\ dialect_of
       (detect_is_v4 (Runs [Build_chunk "spotdl 3.4.2" Stdout true] 0))
     = Current
  /\ (forall cfg url,
        let w : world :=
          fun _ => Runs [Build_chunk "spotdl 3.4.2" Stdout true] 0 in
        fst (download_single_song cfg w true url)
        = [Run (version_cmd cfg); Run (cmd_v4 cfg url)]).
Proof.
  split; [|split].
  - intros ver_check. rewrite dialect_of_current. split.
    + destruct ver_check as [msg | out rc]; simpl; [discriminate|].
      intros H. apply contains_spec in H as (pre & post & H).
      now exists out, rc, pre, post.
    + intros (out & rc & pre & post & -> & H).
      apply detect_is_v4_runs. now exists pre, post.
  - reflexivity.
  - reflexivity.
Qed.

(** C8 as worded fails: a probe that leaves with exit status 1 and
  prints a text with "4." in it has failed, and selects Current. *)
Lemma C8_counterexample :
  let ver_check :=
    Runs [Build_chunk "spotdl 4.2.10 crashed: ffmpeg not found"
                      Stderr true] 1 in
  Spec.probe_failed ver_check
  /\ dialect_of (detect_is_v4 ver_check) = Current.
Proof. split; [discriminate | reflexivity]. Qed.

(** C8 (amended). When starting the probe raises, the detector answers
    Legacy; when the probe runs, its exit status is not looked at: the
    answer is Legacy exactly when "4." does not occur in the output,
    whatever the status. *)
Theorem C8_probe_failure_default :
  (forall msg, dialect_of (detect_is_v4 (SpawnFails msg)) = Legacy)
  /\ (forall out returncode,
        dialect_of (detect_is_v4 (Runs out returncode)) = Legacy <->
        ~ exists pre post,
            captured Stdout out ++ captured Stderr out
            = pre ++ "4." ++ post)
  /\ (forall out returncode returncode',
        detect_is_v4 (Runs out returncode)
        = detect_is_v4 (Runs out returncode')).
Proof.
  split; [|split].
  - reflexivity.
  - intros out rc. rewrite <- detect_is_v4_runs with (returncode := rc).
    destruct (detect_is_v4 (Runs out rc)); simpl; split;
      congruence || (intros H; exfalso; now apply H).
  - reflexivity.
Qed.

End Detector.

(** ** The classification of a finished invocation *)

Section Classification.

Import Adapter.

Lemma classify_table (output : string) (returncode : Z) :
  outcome_of (classify output returncode)
  = if skip_marker (PyStr.lower output) then Skipped
    else if not_found_marker (PyStr.lower output) then
      NotFound match Re.search_quoted output with
               | Some g => g
               | None => "Unknown"
               end
    else if (returncode =? 0)%Z then Downloaded
    else Failed.
Proof.
  unfold classify, skip_marker, not_found_marker.
  destruct (PyStr.contains "already downloaded" (PyStr.lower output));
    destruct (PyStr.contains "skipping" (PyStr.lower output));
    destruct (PyStr.contains "oserror" (PyStr.lower output));
    simpl; try reflexivity;
    destruct (PyStr.contains "could not match" (PyStr.lower output));
    destruct (PyStr.contains "lookuperror" (PyStr.lower output));
    simpl; try reflexivity;
    destruct (returncode =? 0)%Z; reflexivity.
Qed.

Lemma read_lines_all (out : list chunk) :
  forallb still_downloading out = true ->
  read_lines out = Some (map text out).
Proof.
  induction out as [|c out IH]; simpl; [reflexivity|].
  intros H. apply andb_true_iff in H as [Hc Ho].
  rewrite Hc, (IH Ho). reflexivity.
Qed.

(** C1 as worded fails: on the output [could not match] with exit
  status 1 the code's detail is [Unknown], where the wording gives the
  empty text. *)
Lemma C1_counterexample :
  outcome_of (classify "could not match" 1) = NotFound "Unknown"
  /\ Spec.classify "could not match" 1 = NotFound EmptyString
  /\ outcome_of (classify "could not match" 1)
     <> Spec.classify "could not match" 1.
Proof. repeat split; try reflexivity. discriminate. Qed.

(** The other difference: the batch path searches the text as captured;
    a control character inside a marker hides it. *)
Lemma classify_does_not_strip :
  let output := "already" ++ String (ascii_of_nat 7) " downloaded" in
  outcome_of (classify output 0) = Downloaded
  /\ Spec.classify output 0 = Skipped.
Proof. split; reflexivity. Qed.

(** C1 (amended). When [download_single] finds the flag set and its
    process exits, the outcome is decided on the captured standard
    output followed by the standard error, lowered but not stripped, in
    this order: Skipped when it holds "already downloaded" or "skipping";
    else NotFound when it holds "could not match" or "lookuperror", the
    detail being the first non-empty run between two double quotes of
    the captured text, or [Unknown] when there is none; else Downloaded
    when the exit status is zero; else Failed.  In the single-URL path
    the message is looked for in the stripped lines, and the call
    reports success exactly when the exit status is zero or that
    message holds "skipping". *)
Theorem C1_classification_precedence
    (cfg : config) (is_v4 : bool) (w : world) (url : string)
    (out : list chunk) (returncode : Z)
    (Hexit : w (build_cmd is_v4 cfg url) = Runs out returncode) :
  let output := captured Stdout out ++ captured Stderr out in
  outcome_of (snd (download_single cfg is_v4 w true url))
  = (if skip_marker (PyStr.lower output) then Skipped
     else if not_found_marker (PyStr.lower output) then
       NotFound match Re.search_quoted output with
                | Some g => g
                | None => "Unknown"
                end
     else if (returncode =? 0)%Z then Downloaded
     else Failed)
  /\ (forall g, Re.search_quoted output = Some g ->
        g <> EmptyString /\ has_char Re.dquote g = false
        /\ exists pre post,
             output = pre ++ String Re.dquote (g ++ String Re.dquote post))
  /\ (forall output_lines,
        fst (song_verdict output_lines returncode) = Some true <->
        returncode = 0%Z
        \/ exists msg,
             find_result_msg output_lines = Some msg
             /\ PyStr.contains "skipping" (PyStr.lower msg) = true).
Proof.
  intros output. split; [|split].
  - unfold download_single. simpl negb. cbv iota. rewrite Hexit.
    cbn [snd]. apply classify_table.
  - intros g. apply search_quoted_sound.
  - intros output_lines. unfold song_verdict. cbn [fst].
    destruct (returncode =? 0)%Z eqn:E.
    + apply Z.eqb_eq in E. split; auto.
    + apply Z.eqb_neq in E.
      destruct (find_result_msg output_lines) as [msg|]; simpl.
      * split.
        -- intros [= H]. right. now exists msg.
        -- intros [H | (m & [= <-] & H)]; [contradiction | now rewrite H].
      * split; [discriminate|].
        intros [H | (m & H & _)]; [contradiction | discriminate].
Qed.

Lemma C1_classification_precedence_witness :
  let cfg := Build_config "python" "/music" "mp3" 2 in
  let url := "https://open.spotify.com/track/abc" in
  let w : world :=
    fun _ => Runs [Build_chunk "LookupError: could not match" Stderr true] 1
  in
  outcome_of (snd (download_single cfg true w true url))
  = NotFound "Unknown".
Proof.
  intros cfg url w.
  exact (proj1 (C1_classification_precedence cfg true w url _ 1
                  eq_refl)).
Defined.

End Classification.

(** ** Cancellation inside the adapter *)

Section AdapterCancellation.

Import Adapter.

Lemma read_lines_cancelled (out : list chunk) :
  existsb (fun c => negb (still_downloading c)) out = true ->
  read_lines out = None.
Proof.
  induction out as [|c out IH]; simpl; [discriminate|].
  destruct (still_downloading c); simpl; [|reflexivity].
  intros H. now rewrite (IH H).
Qed.

(** C3. Both adapters check the flag before starting anything and
  return at once when it is cleared.  While the process runs, only
  [download_single_song] looks at the flag again and terminates the
  process; [download_single] waits for the process and classifies its
  output whatever became of the flag, as the last part shows on a
  process during which the flag is cleared. *)
Theorem C3_cancellation_check_points :
  (forall cfg is_v4 w url,
      download_single cfg is_v4 w false url = ([], (cancelled, None)))
  /\ (forall cfg w url,
        download_single_song cfg w false url = ([], (None, None)))
  /\ (forall cfg w url out returncode,
        let cmd := build_cmd (detect_is_v4 (w (version_cmd cfg))) cfg url in
        w cmd = Runs out returncode ->
        existsb (fun c => negb (still_downloading c)) out = true ->
        download_single_song cfg w true url
        = ([Run (version_cmd cfg); Run cmd; Terminate cmd], (None, None)))
  /\ (forall cfg is_v4 w url out returncode,
        let cmd := build_cmd is_v4 cfg url in
        w cmd = Runs out returncode ->
        download_single cfg is_v4 w true url
        = ([Run cmd],
           classify (captured Stdout out ++ captured Stderr out) returncode))
  /\ (let cfg := Build_config "python" "/music" "mp3" 2 in
      let url := "https://open.spotify.com/track/abc" in
      let w : world :=
        fun _ => Runs [Build_chunk "Downloading the song" Stdout false] 0 in
      download_single cfg false w true url
      = ([Run (cmd_v3 cfg url)], (downloaded, None))
      /\ download_single_song cfg w true url
         = ([Run (version_cmd cfg); Run (cmd_v3 cfg url);
             Terminate (cmd_v3 cfg url)], (None, None))).
Proof.
  repeat split.
  - intros cfg w url out rc cmd Hw Hc. unfold download_single_song.
    simpl negb. cbv iota. fold cmd. rewrite Hw.
    now rewrite (read_lines_cancelled out Hc).
  - intros cfg is_v4 w url out rc cmd Hw. unfold download_single.
    simpl negb. cbv iota. fold cmd. now rewrite Hw.
Qed.

End AdapterCancellation.

(** ** One dialect per batch, one grammar per command *)

Section Dialects.

Import Adapter.














(** [start_url_download] hands [download_worker] one url. *)
Lemma start_url_download_one_item (st : App.app) (urls : list string) :
  In (App.StartThread (App.download_worker urls))
     (snd (App.start_url_download st)) ->
  List.length urls = 1.
Proof.
  unfold App.start_url_download.
  destruct (negb (PyStr.truthy _)); [intros [H | []]; discriminate H|].
  destruct (negb (App.validate_url _)); [intros [H | []]; discriminate H|].
  destruct (_ || _); simpl; intros [H | [H | [H | []]]];
    try discriminate H.
  now injection H as <-.
Qed.

(** Nothing else starts [download_worker]: every call the application
  makes of it is for one url. *)
Lemma handle_download_worker_one_item (e : App.ui_event) (st : App.app)
    (urls : list string) :
  In (App.StartThread (App.download_worker urls)) (snd (App.handle e st)) ->
  List.length urls = 1.
Proof.
  destruct e; cbn [App.handle]; unfold App.click.
  - intros [].
  - destruct (App.download_btn st); [|intros []].
    apply start_url_download_one_item.
  - destruct (App.liked_btn st); [|intros []].
    unfold App.download_liked_songs.
    destruct (negb (App.spotify_client st));
      [intros [H | []]; discriminate H|].
    destruct (App.is_downloading st); [intros []|].
    destruct limit_input as [input|]; [|intros []].
    destruct (negb (PyStr.truthy input)); [intros []|].
    destruct (if String.eqb _ _ then _ else _);
      simpl; intros H; repeat (destruct H as [H | H]);
      try discriminate H; contradiction.
  - destruct (App.cancel_btn st); [|intros []].
    unfold App.cancel_download.
    destruct (App.is_downloading st); simpl; intros H;
      repeat (destruct H as [H | H]); try discriminate H; contradiction.
  - intros [].
  - intros [H | []]. discriminate H.
  - simpl. intros H. repeat (destruct H as [H | H]);
      try discriminate H; contradiction.
  - unfold App.download_complete. destruct success; simpl.
    + intros H. repeat (destruct H as [H | H]);
        try discriminate H; contradiction.
    + destruct (negb _); simpl; intros H;
        repeat (destruct H as [H | H]); try discriminate H; contradiction.
  - intros [].
Qed.

(** The function by itself would ask again for every song: with two
  items whose calls find the flag set, [download_worker] probes the
  dialect twice.  The application never calls it so. *)
Lemma download_worker_probes_per_song :
  let cfg := Build_config "python" "/music" "mp3" 2 in
  let w : world := fun _ => Runs [] 0 in
  Trace.probes cfg
    (Trace.download_worker cfg w
       [("https://open.spotify.com/track/a", true);
        ("https://open.spotify.com/track/b", true)]) = 2.
Proof. reflexivity. Qed.



End Dialects.

(** ** The pool and the draining loop *)

Section PoolFacts.

Import Dispatcher.

Variable max_workers : nat.
Variable result : Type.
Variable adapter : bool -> stage -> stage + result * bool -> Prop.

Local Abbreviation state := (Dispatcher.state result).
Local Abbreviation step := (Dispatcher.step max_workers result adapter).
Local Abbreviation steps := (Dispatcher.steps max_workers result adapter).
Local Abbreviation reachable :=
  (Dispatcher.reachable max_workers result adapter).
Local Abbreviation pool_inv :=
  (Dispatcher.pool_inv max_workers result).

Lemma held_app (a b : list (string * stage)) :
  held (a ++ b) = held a + held b.
Proof.
  unfold held. now rewrite map_app, list_sum_app.
Qed.

Lemma held_cons (u : string) (g : stage) (l : list (string * stage)) :
  held ((u, g) :: l) = holds g + held l.
Proof. reflexivity. Qed.

Lemma holds_le_1 (g : stage) : holds g <= 1.
Proof. destruct g; simpl; lia. Qed.

(** A call holds at most one process at a time. *)
Lemma held_le_length (l : list (string * stage)) :
  held l <= List.length l.
Proof.
  induction l as [|[u g] l IH]; [reflexivity|].
  rewrite held_cons. pose proof (holds_le_1 g). simpl. lia.
Qed.

Lemma pool_inv_init (urls : list string) :
  pool_inv (List.length urls) (init result urls).
Proof.
  constructor; unfold entered; simpl; try lia; auto; try congruence.
  all: try (intros [H | H]; discriminate H).
Qed.

Lemma app_cons_not_nil {A : Type} (l1 : list A) (x : A) (l2 : list A) :
  (l1 ++ x :: l2)%list <> [].
Proof. destruct l1; discriminate. Qed.

Lemma pool_inv_step (n : nat) (s s' : state) :
  pool_inv n s -> step s s' -> pool_inv n s'.
Proof.
  intros [Hb Ht Hd Hc He Hj Ho] Hstep; unfold entered in *; simpl in *.
  destruct Hstep as
    [ f p r o rd d sp ph
    | f p r o rd d sp ph
    | f u p r o rd d sp ph Hfree
    | f p r1 u g r2 o rd d sp ph g' Hcall
    | f p r1 u g r2 o rd d sp ph res left Hcall
    | f p r o rd d sp ph
    | p r o rd1 res rd2 d sp
    | p r o rd1 res rd2 d sp
    | f o d sp
    | f p o rd d sp how ]; simpl in *;
  constructor; unfold entered; simpl;
  rewrite ?length_app in *; simpl in *;
  try solve [intuition (first [lia | congruence])].
  - (* a call moves on: the function has not returned *)
    intros how Q. specialize (Hj how Q). now apply app_cons_not_nil in Hj.
  - (* a call returns: the function has not returned *)
    intros how Q. specialize (Hj how Q). now apply app_cons_not_nil in Hj.
  - (* a call returns: one more result, at most one more orphan *)
    destruct left; lia.
  - (* return: the loop had ended with every result recorded *)
    intros [Q | Q]; [discriminate Q|]. injection Q as ->.
    apply He. now left.
Qed.

Lemma pool_inv_reachable (urls : list string) (s : state) :
  reachable urls s -> pool_inv (List.length urls) s.
Proof.
  unfold Dispatcher.reachable. intros H.
  remember (init result urls) as s0 eqn:E.
  induction H as [s0 | s0 s1 s2 H12 IH Hstep]; subst.
  - apply pool_inv_init.
  - eapply pool_inv_step; [apply IH; reflexivity | exact Hstep].
Qed.

Lemma steps_trans (s1 s2 s3 : state) :
  steps s1 s2 -> steps s2 s3 -> steps s1 s3.
Proof.
  intros H12 H23. induction H23 as [a | a b c Hab IH Hbc]; [assumption|].
  eapply steps_more; [apply IH; exact H12 | exact Hbc].
Qed.

(** Once nothing is pending, no call is entered any more. *)
Lemma closed_step (s s' : state) :
  step s s' -> pending s = [] ->
  pending s' = [] /\ entered s' = entered s.
Proof.
  intros Hstep. destruct Hstep; unfold entered; simpl; intros Q;
    try discriminate Q; rewrite ?length_app; simpl; split; auto; lia.
Qed.

Lemma closed_steps (s s' : state) :
  steps s s' -> pending s = [] ->
  pending s' = [] /\ entered s' = entered s.
Proof.
  intros H Hp. induction H as [s | s1 s2 s3 H12 IH H23]; [auto|].
  destruct (IH Hp) as [Hp2 Hs2].
  destruct (closed_step _ _ H23 Hp2) as [Hp3 Hs3].
  split; [assumption | congruence].
Qed.




(** An adapter that always waits for its processes leaves none. *)
Lemma no_orphans (urls : list string) (s : state) :
  (forall f g res left, adapter f g (inr (res, left)) -> left = false) ->
  reachable urls s -> orphans s = 0.
Proof.
  intros Hwaits H. unfold Dispatcher.reachable in H.
  remember (init result urls) as s0 eqn:E.
  induction H as [s0 | s0 s1 s2 H12 IH Hstep]; subst; [reflexivity|].
  specialize (IH eq_refl).
  destruct Hstep; simpl in *; try assumption; try discriminate IH.
  match goal with H : adapter _ _ (inr (_, ?l)) |- _ =>
    rewrite (Hwaits _ _ _ _ H) end. lia.
Qed.

(** The processes alive are at most the calls entered. *)
Lemma live_le_entered (urls : list string) (s : state) :
  reachable urls s -> live s <= entered s.
Proof.
  intros H. pose proof (pool_inv_reachable urls s H) as Hinv.
  pose proof (inv_orphans _ _ _ _ Hinv).
  pose proof (held_le_length (running s)).
  unfold live, entered. lia.
Qed.

Section Budget.

(** The processes a call in a stage can still start. *)
Variable budget : stage -> nat.
Hypothesis budget_spent :
  forall f g g', adapter f g (inl g') ->
                 (holds g' - holds g) + budget g' <= budget g.

Local Abbreviation may_start := (Dispatcher.may_start budget).

Lemma may_start_app (a b : list (string * stage)) :
  may_start (a ++ b) = may_start a + may_start b.
Proof. unfold Dispatcher.may_start. now rewrite map_app, list_sum_app. Qed.

Lemma may_start_cons (u : string) (g : stage) (l : list (string * stage)) :
  may_start ((u, g) :: l) = budget g + may_start l.
Proof. reflexivity. Qed.

Lemma budget_step (s s' : state) :
  step s s' ->
  spawned s' + may_start (running s')
  + budget Called * List.length (pending s')
  <= spawned s + may_start (running s)
     + budget Called * List.length (pending s).
Proof.
  intros Hstep. destruct Hstep; simpl;
    rewrite ?may_start_app, ?may_start_cons, ?Nat.mul_succ_r;
    try (unfold Dispatcher.may_start; simpl; lia).
  match goal with H : adapter _ _ (inl _) |- _ =>
    pose proof (budget_spent _ _ _ H) end. lia.
Qed.

Lemma budget_steps (s s' : state) :
  steps s s' ->
  spawned s' + may_start (running s')
  + budget Called * List.length (pending s')
  <= spawned s + may_start (running s)
     + budget Called * List.length (pending s).
Proof.
  intros H. induction H as [s | s1 s2 s3 H12 IH H23]; [lia|].
  pose proof (budget_step _ _ H23). lia.
Qed.

End Budget.

End PoolFacts.

(** ** The batch path: counters, concurrency bound and shutdown *)

Section Batch.

Import Adapter Dispatcher.

Lemma steps_cons (max_workers : nat) (result : Type)
    (adapter : bool -> stage -> stage + result * bool -> Prop)
    (s1 s2 s3 : state result) :
  step max_workers result adapter s1 s2 ->
  steps max_workers result adapter s2 s3 ->
  steps max_workers result adapter s1 s3.
Proof.
  intros H12 H23. eapply steps_trans; [|exact H23].
  eapply steps_more; [apply steps_refl | exact H12].
Qed.

Lemma classify_not_cancelled (output : string) (returncode : Z) :
  fst (classify output returncode) <> cancelled.
Proof.
  unfold classify.
  destruct (_ || _ || _); [discriminate|].
  destruct (_ || _); [discriminate|].
  destruct (returncode =? 0)%Z; discriminate.
Qed.

(** [download_single] answers [cancelled] only to a cleared flag. *)
Lemma single_call_not_cancelled (g : stage) (r : result) (left : bool) :
  single_call true g (inr (r, left)) -> fst r <> cancelled.
Proof.
  intros H. inversion H; subst; try discriminate.
  apply classify_not_cancelled.
Qed.

(** [download_single] never returns with its process alive. *)
Lemma single_call_waits (f : bool) (g : stage) (r : result) (left : bool) :
  single_call f g (inr (r, left)) -> left = false.
Proof. intros H. now inversion H. Qed.

Lemma single_budget_spent (f : bool) (g g' : stage) :
  single_call f g (inl g') ->
  (holds g' - holds g) + single_budget g' <= single_budget g.
Proof. intros H. inversion H; subst; simpl; lia. Qed.

Lemma song_budget_spent (f : bool) (g g' : stage) :
  song_call f g (inl g') ->
  (holds g' - holds g) + song_budget g' <= song_budget g.
Proof. intros H. inversion H; subst; simpl; lia. Qed.

(** The steps of a call are those of [download_single]: what the
  function returns in some world is what a call can return, and the
  other way round. *)
Lemma single_call_agrees (cfg : config) (is_v4 : bool) (url : string)
    (r : result) :
  (exists w f, r = snd (download_single cfg is_v4 w f url))
  <-> returns result single_call Called (r, false).
Proof.
  split.
  - intros (w & f & ->). unfold download_single.
    destruct f; simpl negb; cbv iota.
    + eapply returns_later; [apply single_checked|].
      destruct (w (build_cmd is_v4 cfg url)) as [msg | out rc]; cbn [snd].
      * eapply returns_now. apply (single_run_fails true).
      * eapply returns_later; [apply (single_runs true)|].
        eapply returns_now. apply (single_classified true).
    + eapply returns_now. apply single_cancelled.
  - intros H.
    assert (Hr : r = (cancelled, None) \/ r = (error, None)
                 \/ exists output rc, r = classify output rc).
    { remember Called as g eqn:Eg. remember (r, false) as x eqn:Ex.
      clear Eg. revert Ex.
      induction H as [f g x Hc | f g g' x Hc Hlater IH]; intros ->.
      - inversion Hc; subst; eauto.
      - apply IH. reflexivity. }
    destruct Hr as [-> | [-> | (output & rc & ->)]].
    + exists (fun _ => SpawnFails EmptyString), false. reflexivity.
    + exists (fun _ => SpawnFails EmptyString), true. reflexivity.
    + exists (fun _ => Runs [Build_chunk output Stdout true] rc), true.
      assert (Hnil : forall t : string, t ++ EmptyString = t)
        by (induction t; simpl; congruence).
      unfold download_single. cbn. now rewrite !Hnil.
Qed.

Lemma read_lines_set (output_lines : list string) :
  read_lines (map (fun l => Build_chunk l Stdout true) output_lines)
  = Some output_lines.
Proof.
  induction output_lines as [|l ls IH]; [reflexivity|].
  cbn. now rewrite IH.
Qed.

(** The same for [download_single_song]; it leaves a process behind
  when it returns for a cleared flag found at a line of the output. *)
Lemma song_call_agrees (cfg : config) (url : string) (r : song_result) :
  (exists w f, r = snd (download_single_song cfg w f url))
  <-> exists left, returns song_result song_call Called (r, left).
Proof.
  split.
  - intros (w & f & ->). unfold download_single_song.
    destruct f; simpl negb; cbv iota.
    + set (cmd := build_cmd _ cfg url).
      assert (Hstart : forall x,
                returns song_result song_call Built x ->
                returns song_result song_call Called x).
      { intros x Hx.
        eapply returns_later; [apply song_checked|].
        eapply returns_later; [apply (song_probe true)|].
        eapply returns_later; [apply (song_probe_over true)|]. exact Hx. }
      destruct (w cmd) as [msg | out rc]; cbn [snd].
      * exists false. apply Hstart.
        eapply returns_now. apply (song_popen_fails true).
      * destruct (read_lines out) as [output_lines|]; cbn [snd].
        -- exists false. apply Hstart.
           eapply returns_later; [apply (song_popen true)|].
           eapply returns_now. apply (song_judged true).
        -- exists true. apply Hstart.
           eapply returns_later; [apply (song_popen true)|].
           eapply returns_now. apply song_terminated.
    + exists false. eapply returns_now. apply song_cancelled.
  - intros (left & H).
    assert (Hr : r = (None, None)
                 \/ (exists msg, r = (Some false, Some msg))
                 \/ exists output_lines rc,
                      r = song_verdict output_lines rc).
    { remember Called as g eqn:Eg. remember (r, left) as x eqn:Ex.
      clear Eg. revert Ex.
      induction H as [f g x Hc | f g g' x Hc Hlater IH]; intros ->.
      - inversion Hc; subst; eauto.
      - apply IH. reflexivity. }
    destruct Hr as [-> | [(msg & ->) | (output_lines & rc & ->)]].
    + exists (fun _ => SpawnFails EmptyString), false. reflexivity.
    + exists (fun _ => SpawnFails msg), true. reflexivity.
    + exists (fun _ => Runs (map (fun l => Build_chunk l Stdout true)
                                output_lines) rc), true.
      unfold download_single_song. cbn [negb snd].
      now rewrite read_lines_set.
Qed.

Lemma tally_snoc (d : list result) (r : result) :
  tally (d ++ [r]) = record (tally d) r.
Proof. unfold tally. now rewrite fold_left_app. Qed.

Lemma record_completed (c : counters) (r : result) :
  n_completed (record c r) = n_completed c + 1.
Proof. unfold record. destruct (fst r); reflexivity. Qed.

Lemma record_monotone (c : counters) (r : result) :
  n_downloaded c <= n_downloaded (record c r)
  /\ n_skipped c <= n_skipped (record c r)
  /\ n_errors c <= n_errors (record c r)
  /\ n_completed c <= n_completed (record c r).
Proof. unfold record. destruct (fst r); simpl; lia. Qed.

Lemma tally_completed (d : list result) :
  n_completed (tally d) = List.length d.
Proof.
  induction d as [|r d IH] using rev_ind; [reflexivity|].
  rewrite tally_snoc, record_completed, IH, length_app. reflexivity.
Qed.

Lemma count_tag_app (t : tag) (a b : list result) :
  count_tag t (a ++ b) = count_tag t a + count_tag t b.
Proof. unfold count_tag. now rewrite filter_app, length_app. Qed.

Lemma count_tag_cons (t : tag) (r : result) (l : list result) :
  count_tag t (r :: l)
  = (if tag_eqb (fst r) t then 1 else 0) + count_tag t l.
Proof. unfold count_tag. simpl. now destruct (tag_eqb (fst r) t). Qed.

Lemma count_tag_snoc (t : Adapter.tag) (d : list Adapter.result)
    (r : Adapter.result) :
  count_tag t (d ++ [r])
  = count_tag t d + (if tag_eqb (fst r) t then 1 else 0).
Proof.
  rewrite count_tag_app, count_tag_cons.
  replace (count_tag t []) with 0 by reflexivity. lia.
Qed.

(** The counters are the numbers of recorded results of each tag. *)
Lemma tally_counts (recorded : list Adapter.result) :
  n_downloaded (tally recorded) = count_tag Adapter.downloaded recorded
  /\ n_skipped (tally recorded) = count_tag Adapter.skipped recorded
  /\ n_errors (tally recorded) = count_tag Adapter.error recorded.
Proof.
  induction recorded as [|r d (IH1 & IH2 & IH3)] using rev_ind;
    [repeat split|].
  unfold tally. rewrite fold_left_app. cbn [fold_left].
  fold (tally d). rewrite !count_tag_snoc. unfold record.
  destruct (fst r); simpl; repeat split; lia.
Qed.

(** Every recorded result is counted once: under its tag, or, for the
  tag [cancelled], in [completed] only. *)
Lemma tally_counted (d : list result) :
  counted (tally d) + count_tag cancelled d = List.length d.
Proof.
  induction d as [|r d IH] using rev_ind; [reflexivity|].
  rewrite tally_snoc, count_tag_snoc, length_app. simpl.
  unfold record, counted in *. destruct (fst r); simpl; lia.
Qed.

Lemma batch_step_drained (cfg : config) (s s' : state result) :
  batch_step cfg s s' ->
  drained s' = drained s \/ exists r, drained s' = (drained s ++ [r])%list.
Proof.
  intros H. destruct H; simpl; eauto.
Qed.

(** While the flag is set, no result [cancelled] comes up. *)
Lemma batch_step_cancelled (cfg : config) (s s' : state result) :
  batch_step cfg s s' -> is_downloading s = true ->
  count_tag cancelled (ready s' ++ drained s')
  = count_tag cancelled (ready s ++ drained s).
Proof.
  intros H. destruct H; simpl; intros Hf; try reflexivity;
    try discriminate Hf; subst.
  - rewrite !count_tag_app, count_tag_cons.
    match goal with H : single_call true _ _ |- _ =>
      apply single_call_not_cancelled in H end.
    replace (count_tag cancelled []) with 0 by reflexivity.
    destruct (fst res) eqn:E; simpl; try lia. congruence.
  - rewrite !count_tag_app, !count_tag_cons.
    replace (count_tag cancelled []) with 0 by reflexivity. lia.
Qed.

(** C2 as worded fails, in two ways.  First: two items are submitted,
  the flag is cleared before a pool thread enters the first call, the
  loop finds it cleared and the function returns; no outcome has reached
  the counters.  Second: the flag is cleared while the first item is
  being downloaded, the call for the second item finds it cleared and
  answers [cancelled], and another session sets the flag again before
  the loop looks at it; the loop then records both results and ends,
  every item has its result, and the three counters add up to one. *)
Lemma C2_counterexample :
  let cfg := Build_config "python" "/music" "mp3" 2 in
  let urls := ["https://open.spotify.com/track/a";
               "https://open.spotify.com/track/b"] in
  let s := mk_state result false [] [] 0 [(cancelled, None)] [] 0
                    (Returned CancelSeen) in
  let t := mk_state result true [] [] 0 []
                    [(cancelled, None); (downloaded, None)] 1
                    (Exiting LoopEnd) in
  List.length urls = 2
  /\ batch_reachable cfg urls s
  /\ n_completed (tally (drained s)) = 0
  /\ batch_reachable cfg urls t
  /\ n_completed (tally (drained t)) = 2
  /\ counted (tally (drained t)) = 1.
Proof.
  intros cfg urls s t.
  split; [reflexivity|]. split; [|split; [reflexivity|]].
  - unfold batch_reachable, reachable, init, s, urls.
    eapply steps_cons; [apply step_cancel|].
    eapply steps_cons; [apply step_take; simpl; lia|]. simpl.
    eapply steps_cons;
      [apply (step_finish _ _ _ _ _ []); apply single_cancelled|]. simpl.
    eapply steps_cons; [apply (step_observe_cancel _ _ _ _ _ _ [])|].
    eapply steps_cons; [apply step_return|].
    apply steps_refl.
  - split; [|split; reflexivity].
    unfold batch_reachable, reachable, init, t, urls.
    eapply steps_cons; [apply step_take; simpl; lia|]. simpl.
    eapply steps_cons;
      [apply (step_call _ _ _ _ _ []); apply single_checked|]. simpl.
    eapply steps_cons;
      [apply (step_call _ _ _ _ _ []); apply single_runs|]. simpl.
    eapply steps_cons; [apply step_cancel|].
    eapply steps_cons; [apply step_take; simpl; lia|]. simpl.
    eapply steps_cons;
      [apply (step_finish _ _ _ _ _ [_]); apply single_cancelled|]. simpl.
    eapply steps_cons; [apply step_new_session|].
    eapply steps_cons;
      [apply (step_finish _ _ _ _ _ []);
       apply (single_classified _ "Downloaded" 0%Z)|]. simpl.
    eapply steps_cons; [apply (step_record _ _ _ _ _ _ [])|]. simpl.
    eapply steps_cons; [apply (step_record _ _ _ _ _ _ [])|]. simpl.
    eapply steps_cons; [apply step_loop_end|].
    apply steps_refl.
Qed.

(** C2 (amended). In every state of a batch: each result the loop has
  recorded added exactly one to [completed], and exactly one to one of
  [downloaded], [skipped] and [errors] unless it is [cancelled], the
  answer of a call that found the flag cleared; results not yet
  recorded, and items dropped when the loop finds the flag cleared,
  have added nothing; the recorded results, those ready, the calls in
  progress and the items pending never exceed the submitted items; when
  the loop ends, every submitted item has one recorded result, and the
  three counters add up to the number of submitted items less the
  results [cancelled]; no step decreases a counter, a step taken while
  the flag is set brings up no result [cancelled], and once the loop
  has been left nothing more is recorded. *)
Theorem C2_counters_account_for_items
    (cfg : config) (urls : list string) (s : state result)
    (Hreach : batch_reachable cfg urls s) :
  let c := tally (drained s) in
  n_completed c = List.length (drained s)
  /\ counted c + count_tag cancelled (drained s) = n_completed c
  /\ n_completed c + List.length (ready s) + List.length (running s)
     + List.length (pending s) <= List.length urls
  /\ (pc s = Exiting LoopEnd \/ pc s = Returned LoopEnd ->
      n_completed c = List.length urls
      /\ counted c + count_tag cancelled (drained s) = List.length urls)
  /\ (forall s', batch_step cfg s s' ->
        let c' := tally (drained s') in
        n_downloaded c <= n_downloaded c'
        /\ n_skipped c <= n_skipped c'
        /\ n_errors c <= n_errors c'
        /\ n_completed c <= n_completed c'
        /\ n_completed c' <= n_completed c + 1
        /\ (is_downloading s = true ->
            count_tag cancelled (ready s' ++ drained s')
            = count_tag cancelled (ready s ++ drained s))
        /\ (pc s <> Draining -> drained s' = drained s)).
Proof.
  intros c. unfold c.
  pose proof (pool_inv_reachable _ _ _ urls s Hreach) as Hinv.
  pose proof (tally_counted (drained s)) as Hcounted.
  pose proof (tally_completed (drained s)) as Hcompleted.
  split; [assumption|]. split; [congruence|]. split; [|split].
  - rewrite Hcompleted.
    pose proof (inv_total _ _ _ _ Hinv) as Ht. unfold entered in Ht. lia.
  - intros Hend.
    destruct (inv_ended _ _ _ _ Hinv Hend) as (_ & _ & Hall).
    split; congruence.
  - intros s' Hstep. cbv zeta.
    assert (Hleft : pc s <> Draining -> drained s' = drained s).
    { destruct Hstep; simpl; intros Q; try reflexivity.
      now contradiction Q. }
    pose proof (batch_step_cancelled cfg s s' Hstep) as Hnone.
    destruct (batch_step_drained cfg s s' Hstep) as [E | [r E]];
      rewrite E in *.
    + repeat apply conj; try lia; assumption.
    + rewrite tally_snoc.
      pose proof (record_monotone (tally (drained s)) r).
      rewrite record_completed. repeat apply conj; try lia; assumption.
Qed.

Lemma C2_counters_account_for_items_witness :
  let cfg := Build_config "python" "/music" "mp3" 2 in
  let urls := ["https://open.spotify.com/track/a";
               "https://open.spotify.com/track/b"] in
  let s := mk_state result true [] [] 0 []
                    [(downloaded, None); (skipped, None)] 2
                    (Exiting LoopEnd) in
  batch_reachable cfg urls s
  /\ counted (tally (drained s)) + count_tag cancelled (drained s) = 2.
Proof.
  intros cfg urls s.
  assert (Hreach : batch_reachable cfg urls s).
  { unfold batch_reachable, reachable, init, s, urls.
    eapply steps_cons; [apply step_take; simpl; lia|]. simpl.
    eapply steps_cons; [apply step_take; simpl; lia|]. simpl.
    eapply steps_cons;
      [apply (step_call _ _ _ _ _ []); apply single_checked|]. simpl.
    eapply steps_cons;
      [apply (step_call _ _ _ _ _ [_]); apply single_checked|]. simpl.
    eapply steps_cons;
      [apply (step_call _ _ _ _ _ []); apply single_runs|]. simpl.
    eapply steps_cons;
      [apply (step_call _ _ _ _ _ [_]); apply single_runs|]. simpl.
    eapply steps_cons;
      [apply (step_finish _ _ _ _ _ []);
       apply (single_classified _ "Downloaded" 0%Z)|]. simpl.
    eapply steps_cons;
      [apply (step_finish _ _ _ _ _ []);
       apply (single_classified _ "Skipping" 0%Z)|]. simpl.
    eapply steps_cons; [apply (step_record _ _ _ _ _ _ [])|]. simpl.
    eapply steps_cons; [apply (step_record _ _ _ _ _ _ [])|]. simpl.
    eapply steps_cons; [apply step_loop_end|].
    apply steps_refl. }
  split; [exact Hreach|].
  destruct (C2_counters_account_for_items cfg urls s Hreach)
    as (_ & _ & _ & Hend & _).
  apply Hend. now left.
Defined.

End Batch.
(** ** The terminal report *)

Section Report.

Import Dispatcher App.

Lemma digits_only_uint (u : Decimal.uint) :
  digits_only (NilEmpty.string_of_uint u) = true.
Proof. induction u; simpl; auto. Qed.

Lemma digits_only_str_of_nat (n : nat) :
  digits_only (PyStr.str_of_nat n) = true.
Proof.
  unfold PyStr.str_of_nat, NilZero.string_of_uint.
  destruct (Nat.to_uint n) eqn:E; try reflexivity;
    rewrite <- E; apply digits_only_uint.
Qed.

Lemma digit_lower (c : ascii) :
  (48 <=? nat_of_ascii c) && (nat_of_ascii c <=? 57) = true ->
  PyStr.lower_char c = c /\ c <> "c"%char.
Proof.
  intros H. split.
  - unfold PyStr.lower_char.
    apply andb_true_iff in H as [H1 H2].
    apply Nat.leb_le in H1, H2.
    destruct (65 <=? nat_of_ascii c) eqn:E1;
      [apply Nat.leb_le in E1; lia|].
    destruct (192 <=? nat_of_ascii c) eqn:E2;
      [apply Nat.leb_le in E2; lia|].
    reflexivity.
  - intros ->. vm_compute in H. discriminate H.
Qed.

(** A text made of digits hides no [cancel]. *)
Lemma no_cancel_after_digits (s t : string) :
  digits_only s = true ->
  PyStr.contains "cancel" (PyStr.lower (s ++ t))
  = PyStr.contains "cancel" (PyStr.lower t).
Proof.
  induction s as [|c s IH]; intros H; [reflexivity|].
  cbn [digits_only] in H. apply andb_true_iff in H as [Hc Hs].
  destruct (digit_lower c Hc) as [Hl Hne].
  cbn [append PyStr.lower]. rewrite Hl.
  cbn [PyStr.contains String.prefix].
  destruct (ascii_dec "c" c) as [E|_]; [now symmetry in E|].
  now apply IH.
Qed.

Lemma failed_message_not_cancel (e : nat) :
  PyStr.contains "cancel"
    (PyStr.lower (PyStr.str_of_nat e ++ " songs failed to download"))
  = false.
Proof.
  rewrite no_cancel_after_digits by apply digits_only_str_of_nat.
  reflexivity.
Qed.

Lemma final_report_not_cancel_report (c : counters) :
  final_report c <> cancel_report.
Proof.
  unfold final_report, cancel_report.
  destruct (_ || _); [discriminate|].
  destruct (0 <? n_errors c); [|discriminate].
  intros [= E]. apply (f_equal String.length) in E.
  rewrite length_append in E. simpl in E. lia.
Qed.

Lemma count_tag_pos (t : Adapter.tag) (d : list Adapter.result) :
  0 < count_tag t d <-> exists r, In r d /\ fst r = t.
Proof.
  unfold count_tag. induction d as [|r d IH]; simpl.
  - split; [lia | intros (r & [] & _)].
  - destruct (tag_eqb (fst r) t) eqn:E; simpl.
    + split; [intros _ | lia]. exists r. split; [now left|].
      destruct (fst r), t; (reflexivity || discriminate E).
    + rewrite IH. split.
      * intros (r' & Hin & Ht). exists r'. split; [now right | exact Ht].
      * intros (r' & [<- | Hin] & Ht); [|now exists r'].
        subst t. destruct (fst r); discriminate E.
Qed.

Lemma outcome_of_success (r : Adapter.result) :
  (Adapter.outcome_of r = Adapter.Downloaded
   \/ Adapter.outcome_of r = Adapter.Skipped)
  <-> (fst r = Adapter.downloaded \/ fst r = Adapter.skipped).
Proof.
  destruct r as [[] [info|]]; simpl; split; intros [H | H];
    try discriminate H; auto.
Qed.

Lemma outcome_of_failure (r : Adapter.result) :
  (Adapter.outcome_of r = Adapter.Failed
   \/ exists detail, Adapter.outcome_of r = Adapter.NotFound detail)
  <-> fst r = Adapter.error.
Proof.
  destruct r as [[] [info|]]; simpl; split;
    try (intros [H | [detail H]]; discriminate H);
    try (intros H; discriminate H); eauto.
Qed.

(** C7 as worded fails, in two ways.  First: [download_worker], with
  the flag still set, reports a success for one song whose process
  failed without any message, though no outcome is a success.  Second:
  the report of a cancelled batch goes through [download_complete] like
  a failure: the status gets the cross and [Cancelled] is logged at
  level [error]; only the dialog is left out. *)
Lemma C7_counterexample :
  let recorded := [Adapter.song_verdict ["some failure"] 1] in
  filter is_success recorded = []
  /\ song_final_report true (song_tally recorded)
     = (true, "Downloaded 0 songs!")
  /\ snd (download_complete (fst cancel_report) (snd cancel_report)
            (initial "/music"))
     = [SetProgress false; SetStatus Cross "Cancelled";
        Log "Cancelled" "error"].
Proof. repeat split. Qed.

(** C7 (amended). The final report of [batch_download_worker] is a
  success exactly when one of the recorded outcomes is Downloaded or
  Skipped, and [download_complete] then shows the information dialog;
  when none is and some outcome is Failed or NotFound, the report is a
  failure whose message starts with the number of those outcomes, and
  [download_complete] shows the error dialog with it.  [download_worker]
  reports a success when the flag is still set and some song succeeded
  (what it reports when none did is left out).  Both report a
  cancellation as [(False, Cancelled)], which is none of their other
  reports; for it [download_complete] ends the session and shows no
  dialog, but marks the status with the cross and logs at level
  [error]. *)
Theorem C7_terminal_report (recorded : list Adapter.result)
    (songs : list Adapter.song_result) (st : app) :
  let c := tally recorded in
  (fst (final_report c) = true <->
   exists r, In r recorded
             /\ (Adapter.outcome_of r = Adapter.Downloaded
                 \/ Adapter.outcome_of r = Adapter.Skipped))
  /\ (fst (final_report c) = true ->
      snd (download_complete true (snd (final_report c)) st)
      = [SetProgress true;
         SetStatus Tick (snd (final_report c));
         Log (snd (final_report c)) "success";
         ShowInfo "Success"
           (snd (final_report c) ++ nl ++ nl ++ "Saved to: "
            ++ output_folder st)])
  /\ ((forall r, In r recorded ->
         Adapter.outcome_of r <> Adapter.Downloaded
         /\ Adapter.outcome_of r <> Adapter.Skipped) ->
      (exists r, In r recorded
                 /\ (Adapter.outcome_of r = Adapter.Failed
                     \/ exists detail,
                          Adapter.outcome_of r = Adapter.NotFound detail)) ->
      let message :=
        PyStr.str_of_nat (count_tag Adapter.error recorded)
        ++ " songs failed to download" in
      final_report c = (false, message)
      /\ snd (download_complete false message st)
         = [SetProgress false; SetStatus Cross message;
            Log message "error"; ShowError "Error" message])
  /\ ((exists r, In r songs /\ is_success r = true) ->
      fst (song_final_report true (song_tally songs)) = true)
  /\ final_report c <> cancel_report
  /\ song_final_report true (song_tally songs) <> cancel_report
  /\ song_final_report false (song_tally songs) = cancel_report
  /\ download_complete (fst cancel_report) (snd cancel_report) st
     = (set_downloading_state false st,
        [SetProgress false; SetStatus Cross "Cancelled";
         Log "Cancelled" "error"]).
Proof.
  intros c. destruct (tally_counts recorded) as (Hd & Hs & He).
  fold c in Hd, Hs, He.
  assert (Hsuccess :
    fst (final_report c) = true <-> 0 < n_downloaded c \/ 0 < n_skipped c).
  { unfold final_report.
    destruct (Nat.ltb_spec 0 (n_downloaded c)) as [D | D];
      destruct (Nat.ltb_spec 0 (n_skipped c)) as [S | S]; simpl.
    - split; auto.
    - split; auto.
    - split; auto.
    - destruct (0 <? n_errors c); simpl;
        (split; [discriminate | intros [H | H]; lia]). }
  assert (Hsong : forall sc, fst (song_final_report true sc) = true).
  { intros sc. unfold song_final_report. now destruct (0 <? n_existed sc). }
  split; [|split; [|split; [|split; [|split; [|split; [|split]]]]]].
  - rewrite Hsuccess, Hd, Hs, !count_tag_pos. split.
    + intros [(r & Hin & Ht) | (r & Hin & Ht)]; exists r;
        (split; [exact Hin | apply outcome_of_success; auto]).
    + intros (r & Hin & Ho). apply outcome_of_success in Ho as [Ht | Ht];
        [left | right]; now exists r.
  - intros _. reflexivity.
  - intros Hnone (r & Hin & Hfail) message.
    assert (D : n_downloaded c = 0).
    { destruct (Nat.eq_dec (n_downloaded c) 0) as [|Hne]; [assumption|].
      assert (Hpos : 0 < count_tag Adapter.downloaded recorded) by lia.
      apply count_tag_pos in Hpos as (r' & Hin' & Ht).
      destruct (Hnone r' Hin') as [Hn _]. exfalso. apply Hn.
      destruct r' as [t info]. simpl in Ht. now subst t. }
    assert (S : n_skipped c = 0).
    { destruct (Nat.eq_dec (n_skipped c) 0) as [|Hne]; [assumption|].
      assert (Hpos : 0 < count_tag Adapter.skipped recorded) by lia.
      apply count_tag_pos in Hpos as (r' & Hin' & Ht).
      destruct (Hnone r' Hin') as [_ Hn]. exfalso. apply Hn.
      destruct r' as [t info]. simpl in Ht. now subst t. }
    assert (E : 0 < n_errors c).
    { rewrite He. apply count_tag_pos. exists r. split; [exact Hin|].
      now apply outcome_of_failure. }
    unfold final_report. rewrite D, S. simpl.
    apply Nat.ltb_lt in E. rewrite E. unfold message. rewrite <- He.
    split; [reflexivity|].
    unfold download_complete. now rewrite failed_message_not_cancel.
  - intros _. apply Hsong.
  - apply final_report_not_cancel_report.
  - intros E. specialize (Hsong (song_tally songs)).
    rewrite E in Hsong. discriminate Hsong.
  - reflexivity.
  - reflexivity.
Qed.

(** The single-URL path differs: [download_worker] reports a success
  whenever the flag is still set after the pool has been left, also when
  nothing was downloaded or skipped; so one song whose process fails
  without a message ends in the success report [Downloaded 0 songs!]. *)
Theorem download_worker_reports_success_unless_cancelled :
  (forall c : song_counters, fst (song_final_report true c) = true)
  /\ (forall c : song_counters,
        song_final_report false c = (false, "Cancelled"))
  /\ song_final_report true
       (song_tally [Adapter.song_verdict ["some failure"] 1])
     = (true, "Downloaded 0 songs!").
Proof.
  repeat split.
  intros c. unfold song_final_report. now destruct (0 <? n_existed c).
Qed.

End Report.

(** ** Starting a batch while one is running *)

Section Start.

Import App.

Lemma set_downloading_state_gated (downloading : bool) (st : app) :
  buttons_gated (set_downloading_state downloading st).
Proof.
  unfold buttons_gated, set_downloading_state. simpl.
  destruct downloading, (spotify_client st); simpl; split; congruence.
Qed.

Lemma handle_gated (e : ui_event) (st : app) :
  buttons_gated st -> buttons_gated (fst (handle e st)).
Proof.
  intros H. destruct e; cbn [handle].
  - exact H.
  - unfold click. destruct (download_btn st); [|exact H].
    unfold start_url_download.
    destruct (negb (PyStr.truthy _)); [exact H|].
    destruct (negb (validate_url _)); [exact H|].
    destruct (_ || _); exact (set_downloading_state_gated true st).
  - unfold click. destruct (liked_btn st); [|exact H].
    unfold download_liked_songs.
    destruct (negb (spotify_client st)); [exact H|].
    destruct (is_downloading st); [exact H|].
    destruct limit_input as [input|]; [|exact H].
    destruct (negb (PyStr.truthy input)); [exact H|].
    destruct (if String.eqb _ _ then _ else _);
      [exact (set_downloading_state_gated true st) | exact H].
  - unfold click. destruct (cancel_btn st); [|exact H].
    unfold cancel_download. destruct (is_downloading st); [|exact H].
    destruct H as [_ Hl]. split; [discriminate | exact Hl].
  - destruct H as [Hd _]. split; [exact Hd | reflexivity].
  - destruct H as [Hd _]. split; [exact Hd | discriminate].
  - exact (set_downloading_state_gated true st).
  - unfold download_complete.
    destruct success; exact (set_downloading_state_gated false st).
  - exact H.
Qed.

Lemma run_gated (events : list ui_event) (st : app) :
  buttons_gated st -> buttons_gated (run events st).
Proof.
  revert st. induction events as [|e events IH]; intros st H; [assumption|].
  simpl. apply IH. now apply handle_gated.
Qed.

Lemma initial_gated (folder : string) : buttons_gated (initial folder).
Proof. split; simpl; discriminate. Qed.

(** The check is on the state the buttons are in, not on the function:
  [start_url_download] itself starts a thread whenever the entry holds
  a valid url.  Only its button calls it (line 475). *)
Lemma start_url_download_unguarded (st : app) :
  PyStr.truthy (PyStr.strip (url_entry st)) = true ->
  validate_url (PyStr.strip (url_entry st)) = true ->
  dispatches (snd (start_url_download st)) = true.
Proof.
  intros Hurl Hvalid. unfold start_url_download.
  rewrite Hurl, Hvalid. cbn [negb].
  destruct (_ || _); reflexivity.
Qed.

(** C9. In every state the application object can reach, the
  downloading state being set, a start command does nothing: a click on
  the download button and a click on the liked-songs button both leave
  the object as it is and start no thread.  The download button is
  disabled as long as the downloading state is set, and
  [download_liked_songs], whose button a login can enable meanwhile,
  returns at once when it finds the state set. *)
Theorem C9_start_while_downloading
    (events : list ui_event) (folder : string)
    (py_int : string -> option Z) (limit_input : option string) :
  let st := run events (initial folder) in
  is_downloading st = true ->
  handle ClickDownload st = (st, [])
  /\ handle (ClickLiked py_int limit_input) st = (st, [])
  /\ download_btn st = false
  /\ (spotify_client st = true ->
      download_liked_songs py_int limit_input st = (st, [])).
Proof.
  intros st Hdown.
  destruct (run_gated events (initial folder) (initial_gated folder))
    as [Hd Hl]. fold st in Hd, Hl.
  split; [|split; [|split]].
  - simpl. unfold click. now rewrite (Hd Hdown).
  - simpl. unfold click. destruct (liked_btn st) eqn:E; [|reflexivity].
    unfold download_liked_songs. now rewrite (Hl eq_refl), Hdown.
  - exact (Hd Hdown).
  - intros Hc. unfold download_liked_songs. now rewrite Hc, Hdown.
Qed.

Lemma C9_start_while_downloading_witness :
  let events := [TypeUrl "https://open.spotify.com/album/xyz";
                 ClickDownload; Login] in
  let st := run events (initial "/music") in
  is_downloading st = true
  /\ liked_btn st = true
  /\ handle ClickDownload st = (st, [])
  /\ handle (ClickLiked (fun _ => Some 5%Z) (Some "5")) st = (st, []).
Proof.
  intros events st.
  assert (Hdown : is_downloading st = true) by reflexivity.
  destruct (C9_start_while_downloading events "/music"
              (fun _ => Some 5%Z) (Some "5") Hdown) as (H1 & H2 & _).
  repeat split; assumption.
Defined.

End Start.

(** ** The concurrency bound and the shutdown of the pool *)

Section BoundAndShutdown.

Import Adapter Dispatcher.

Lemma batch_worker_in_pool (cfg : config) (urls : list string)
    (b : batch_worker) :
  batch_worker_reachable cfg urls b ->
  match b with
  | Query _ => True
  | Pool s => batch_reachable cfg urls s
  end.
Proof.
  intros H. induction H as [|b b' Hb IH Hstep]; [exact I|].
  destruct Hstep as [ | | |s s' Hstep]; try exact I; try apply steps_refl.
  eapply steps_more; [exact IH | exact Hstep].
Qed.

Lemma batch_pool_reached (cfg : config) (urls : list string)
    (s : state result) :
  batch_reachable cfg urls s -> batch_worker_reachable cfg urls (Pool s).
Proof.
  unfold batch_reachable, reachable. intros H.
  remember (init result urls) as s0 eqn:E.
  induction H as [s0 | s0 s1 s2 H12 IH Hstep]; subst.
  - eapply worker_moves; [eapply worker_moves; [apply worker_called|] |].
    + apply query_starts.
    + apply query_over.
  - eapply worker_moves; [apply IH; reflexivity|].
    apply pool_moves. exact Hstep.
Qed.

(** In the pool of [batch_download_worker] every process alive belongs
  to a call in progress. *)
Lemma batch_live_running (cfg : config) (urls : list string)
    (s : state result) :
  batch_reachable cfg urls s ->
  orphans s = 0 /\ live s <= List.length (running s).
Proof.
  intros H.
  assert (Ho : orphans s = 0)
    by (apply (no_orphans _ _ _ urls s single_call_waits H)).
  split; [exact Ho|]. unfold live. rewrite Ho.
  pose proof (held_le_length (running s)). lia.
Qed.

(** C4. At every moment of a batch of [batch_download_worker], from the
  version query on, the external processes alive are at most
  [worker_count], each of them held by one of at most [worker_count]
  calls in progress.  [download_worker] has a pool of two threads
  whatever the configured limit, but the application starts it for one
  url only, and then at most one process is alive at any moment of the
  batch, the version query and the download following each other. *)
Theorem C4_concurrency_bound
    (cfg : config) (urls : list string) (b : batch_worker)
    (e : App.ui_event) (st : App.app) (urls' : list string)
    (s' : state song_result)
    (Hlimit : 1 <= worker_count cfg)
    (Hbatch : batch_worker_reachable cfg urls b)
    (Hstart : In (App.StartThread (App.download_worker urls'))
                 (snd (App.handle e st)))
    (Hsong : song_reachable urls' s') :
  batch_live b <= worker_count cfg
  /\ (forall s, b = Pool s ->
        live s <= List.length (running s)
        /\ List.length (running s) <= worker_count cfg)
  /\ List.length urls' = 1
  /\ List.length (running s') <= single_max_workers
  /\ live s' <= 1
  /\ live s' <= worker_count cfg.
Proof.
  pose proof (batch_worker_in_pool cfg urls b Hbatch) as Hpool.
  assert (Hin : forall s, b = Pool s ->
            live s <= List.length (running s)
            /\ List.length (running s) <= worker_count cfg).
  { intros s ->. split.
    - apply (batch_live_running cfg urls s Hpool).
    - apply (inv_bound _ _ _ _ (pool_inv_reachable _ _ _ urls s Hpool)). }
  assert (Hone : live s' <= 1).
  { pose proof (live_le_entered _ _ _ urls' s' Hsong) as Hl.
    pose proof (inv_total _ _ _ _ (pool_inv_reachable _ _ _ urls' s' Hsong))
      as Ht.
    rewrite (handle_download_worker_one_item e st urls' Hstart) in Ht.
    lia. }
  split; [|split; [exact Hin|split; [|split; [|split; [exact Hone | lia]]]]].
  3: exact (inv_bound _ _ _ _ (pool_inv_reachable _ _ _ urls' s' Hsong)).
  2: exact (handle_download_worker_one_item e st urls' Hstart).
  destruct b as [alive | s]; simpl.
  - destruct alive; lia.
  - destruct (Hin s eq_refl). lia.
Qed.

Lemma C4_concurrency_bound_witness :
  let cfg := Build_config "python" "/music" "mp3" 1 in
  let a := "https://open.spotify.com/track/a" in
  let b := "https://open.spotify.com/track/b" in
  let s := mk_state result true [b] [(a, Started)] 0 [] [] 1 Draining in
  let st := App.mk_app false false true false false a "/music" in
  let s' := mk_state song_result true [] [(a, Probing)] 0 [] [] 1
                     Draining in
  batch_worker_reachable cfg [a; b] (Pool s)
  /\ song_reachable [a] s'
  /\ batch_live (Pool s) <= 1 /\ live s' <= 1.
Proof.
  intros cfg a b s st s'.
  assert (Hbatch : batch_worker_reachable cfg [a; b] (Pool s)).
  { apply batch_pool_reached.
    unfold batch_reachable, reachable, init, s.
    eapply steps_cons; [apply step_take; simpl; lia|]. simpl.
    eapply steps_cons;
      [apply (step_call _ _ _ _ _ []); apply single_checked|]. simpl.
    eapply steps_cons;
      [apply (step_call _ _ _ _ _ [] _ _ _ _ _ _ _ _ Started);
       apply single_runs|]. simpl.
    apply steps_refl. }
  assert (Hsong : song_reachable [a] s').
  { unfold song_reachable, reachable, init, s'.
    eapply steps_cons;
      [apply step_take; unfold single_max_workers; simpl; lia|]. simpl.
    eapply steps_cons;
      [apply (step_call _ _ _ _ _ []); apply song_checked|]. simpl.
    eapply steps_cons;
      [apply (step_call _ _ _ _ _ [] _ _ _ _ _ _ _ _ Probing);
       apply song_probe|]. simpl.
    apply steps_refl. }
  assert (Hstart : In (App.StartThread (App.download_worker [a]))
                      (snd (App.handle App.ClickDownload st))).
  { vm_compute. right. right. now left. }
  assert (Hlimit : 1 <= worker_count cfg) by (simpl; lia).
  destruct (C4_concurrency_bound cfg [a; b] (Pool s) App.ClickDownload st
              [a] s' Hlimit Hbatch Hstart Hsong)
    as (H1 & _ & _ & _ & H3 & _).
  repeat split; assumption.
Defined.

(** The pool of [download_worker] by itself does not bound the
  processes: with three urls, a process left behind by a cancelled call
  is alive beside those of two later calls. *)
Lemma download_worker_pool_does_not_bound :
  let a := "https://open.spotify.com/track/a" in
  let b := "https://open.spotify.com/track/b" in
  let c := "https://open.spotify.com/track/c" in
  let s := mk_state song_result true [] [(b, Started); (c, Started)] 1
                    [(None, None)] [] 6 Draining in
  song_reachable [a; b; c] s /\ live s = 3.
Proof.
  intros a b c s. split; [|reflexivity].
  unfold song_reachable, reachable, init, s.
  eapply steps_cons;
    [apply step_take; unfold single_max_workers; simpl; lia|]. simpl.
  eapply steps_cons;
    [apply (step_call _ _ _ _ _ []); apply song_checked|]. simpl.
  eapply steps_cons;
    [apply (step_call _ _ _ _ _ [] _ _ _ _ _ _ _ _ Probing);
     apply song_probe|]. simpl.
  eapply steps_cons;
    [apply (step_call _ _ _ _ _ []); apply song_probe_over|]. simpl.
  eapply steps_cons;
    [apply (step_call _ _ _ _ _ []); apply song_popen|]. simpl.
  eapply steps_cons; [apply step_cancel|].
  eapply steps_cons;
    [apply (step_finish _ _ _ _ _ []); apply song_terminated|]. simpl.
  eapply steps_cons; [apply step_new_session|].
  eapply steps_cons;
    [apply step_take; unfold single_max_workers; simpl; lia|]. simpl.
  eapply steps_cons;
    [apply step_take; unfold single_max_workers; simpl; lia|]. simpl.
  eapply steps_cons;
    [apply (step_call _ _ _ _ _ []); apply song_checked|]. simpl.
  eapply steps_cons;
    [apply (step_call _ _ _ _ _ [_]); apply song_checked|]. simpl.
  eapply steps_cons;
    [apply (step_call _ _ _ _ _ [] _ _ _ _ _ _ _ _ Probing);
     apply song_probe|]. simpl.
  eapply steps_cons;
    [apply (step_call _ _ _ _ _ [_] _ _ _ _ _ _ _ _ Probing);
     apply song_probe|]. simpl.
  eapply steps_cons;
    [apply (step_call _ _ _ _ _ []); apply song_probe_over|]. simpl.
  eapply steps_cons;
    [apply (step_call _ _ _ _ _ [_]); apply song_probe_over|]. simpl.
  eapply steps_cons;
    [apply (step_call _ _ _ _ _ []); apply song_popen|]. simpl.
  eapply steps_cons;
    [apply (step_call _ _ _ _ _ [_]); apply song_popen|]. simpl.
  apply steps_refl.
Qed.


End BoundAndShutdown.
(** * Further properties of the code *)

(** ** Worker count and version checks *)

Section SetupFacts.

Import Setup.

Lemma N_div_spec (a b : N) :
  b <> 0%N -> exists q r, (a / b = q /\ a = b * q + r /\ r < b)%N.
Proof.
  intros Hb. exists (a / b)%N, (a mod b)%N.
  split; [reflexivity|].
  split; [apply N.div_mod; exact Hb | now apply N.mod_lt].
Qed.

Lemma cpu_based_range (cpu_count : option N) :
  (2 <= N.max 2 (match cpu_count with
                 | Some 0%N | None => 4%N
                 | Some n => n
                 end / 2))%N.
Proof. apply N.le_max_l. Qed.

(** The worker count proposed by [get_optimal_workers] is at least 2 and
  at most 8, whatever the machine reports, so it lies on the slider
  (1 to 8) and is a legal pool size; it is 8 exactly when there are at
  least 16 cores and 16 GiB; and more cores or more memory never give
  fewer workers. *)
Theorem get_optimal_workers_range :
  (forall cpu_count total,
      (2 <= get_optimal_workers cpu_count total <= 8)%N)
  /\ (forall cpu total,
        get_optimal_workers (Some cpu) (Some total) = 8%N <->
        (16 <= cpu /\ 2 ^ 34 <= total)%N)
  /\ (forall cpu cpu' total total',
        (1 <= cpu <= cpu')%N -> (total <= total')%N ->
        (get_optimal_workers (Some cpu) (Some total)
         <= get_optimal_workers (Some cpu') (Some total'))%N).
Proof.
  split; [|split].
  - intros cpu_count [total|]; unfold get_optimal_workers; [|lia].
    pose proof (cpu_based_range cpu_count).
    pose proof (N.le_max_l 2 (total / 2 ^ 31)).
    lia.
  - intros cpu total. unfold get_optimal_workers.
    assert (Hc : match cpu with 0%N => 4%N | _ => cpu end
                 = if (cpu =? 0)%N then 4%N else cpu)
      by (destruct cpu; reflexivity).
    rewrite Hc. clear Hc.
    change (2 ^ 34)%N with 17179869184%N.
    change (2 ^ 31)%N with 2147483648%N.
    destruct (N.eqb_spec cpu 0) as [->|Hne].
    + change (4 / 2)%N with 2%N.
      destruct (N_div_spec total 2147483648 ltac:(discriminate))
        as (q & r & -> & Hq & Hr).
      lia.
    + cbv iota.
      destruct (N_div_spec cpu 2 ltac:(discriminate))
        as (q' & r' & -> & Hq' & Hr').
      destruct (N_div_spec total 2147483648 ltac:(discriminate))
        as (q & r & -> & Hq & Hr).
      lia.
  - intros cpu cpu' total total' Hcpu Htotal. unfold get_optimal_workers.
    assert (Hc : match cpu with 0%N => 4%N | _ => cpu end = cpu)
      by (destruct cpu; [lia | reflexivity]).
    assert (Hc' : match cpu' with 0%N => 4%N | _ => cpu' end = cpu')
      by (destruct cpu'; [lia | reflexivity]).
    rewrite Hc, Hc'.
    change (2 ^ 31)%N with 2147483648%N.
    destruct (N_div_spec cpu 2 ltac:(discriminate))
      as (q1 & r1 & -> & Hq1 & Hr1).
    destruct (N_div_spec cpu' 2 ltac:(discriminate))
      as (q2 & r2 & -> & Hq2 & Hr2).
    destruct (N_div_spec total 2147483648 ltac:(discriminate))
      as (q3 & r3 & -> & Hq3 & Hr3).
    destruct (N_div_spec total' 2147483648 ltac:(discriminate))
      as (q4 & r4 & -> & Hq4 & Hr4).
    lia.
Qed.

(** The setup accepts exactly the Python versions from 3.9.0 up to, and
  not including, 3.14: older ones end the program, newer ones only get
  a warning.  3.9.0 itself is accepted, because a longer tuple with the
  same first components comes after the pair it is compared with. *)
Theorem check_python_verdicts (major minor micro : N) :
  (check_python major minor micro = TooOld <->
   (major < 3 \/ (major = 3 /\ minor < 9))%N)
  /\ (check_python major minor micro = Unstable <->
      (3 < major \/ (major = 3 /\ 14 <= minor))%N)
  /\ (check_python major minor micro = VersionOk <->
      (major = 3 /\ 9 <= minor < 14)%N).
Proof.
  unfold check_python, tuple_ge, tuple_lt.
  destruct (N.ltb_spec major 3); destruct (N.ltb_spec 3 major);
    try lia; cbn [negb].
  - repeat split; try discriminate; intros; try lia; auto.
  - repeat split; try discriminate; intros; try lia; auto.
  - assert (major = 3%N) by lia. subst major.
    destruct (N.ltb_spec minor 14); destruct (N.ltb_spec 14 minor);
      try lia; cbn [negb];
      destruct (N.ltb_spec minor 9); destruct (N.ltb_spec 9 minor);
      try lia; cbn [negb];
      repeat split; try discriminate; intros; try lia; auto.
Qed.

Lemma append_assoc (a b c : string) : (a ++ b) ++ c = a ++ (b ++ c).
Proof. induction a as [|x a IH]; simpl; [reflexivity | now rewrite IH]. Qed.

Lemma span_digits_spec (s : string) :
  let (run, tl) := span_digits s in
  s = run ++ tl /\ digits_only run = true.
Proof.
  induction s as [|c s IH]; cbn [span_digits]; [split; reflexivity|].
  unfold is_digit. destruct (_ && _) eqn:E.
  - destruct (span_digits s) as [run tl]. destruct IH as [-> Hd].
    split; [reflexivity|]. cbn [digits_only]. now rewrite E, Hd.
  - split; reflexivity.
Qed.

Lemma version_at_sound (s v : string) :
  version_at s = Some v ->
  exists a b c post,
    v = a ++ "." ++ b ++ "." ++ c /\ s = v ++ post
    /\ a <> EmptyString /\ b <> EmptyString /\ c <> EmptyString
    /\ digits_only a = true /\ digits_only b = true
    /\ digits_only c = true.
Proof.
  unfold version_at.
  pose proof (span_digits_spec s) as H1.
  destruct (span_digits s) as [a r1]. destruct H1 as [-> Ha].
  destruct a as [|a0 a]; [discriminate|].
  destruct r1 as [|d1 r1]; [discriminate|].
  destruct (ascii_dec d1 ".") as [->|Hne];
    [|destruct d1 as [[] [] [] [] [] [] [] []]; try discriminate;
      now contradiction Hne].
  pose proof (span_digits_spec r1) as H2.
  destruct (span_digits r1) as [b r2]. destruct H2 as [-> Hb].
  destruct b as [|b0 b]; [discriminate|].
  destruct r2 as [|d2 r2]; [discriminate|].
  destruct (ascii_dec d2 ".") as [->|Hne];
    [|destruct d2 as [[] [] [] [] [] [] [] []]; try discriminate;
      now contradiction Hne].
  pose proof (span_digits_spec r2) as H3.
  destruct (span_digits r2) as [c r3]. destruct H3 as [-> Hc].
  destruct c as [|c0 c]; [discriminate|].
  intros [= <-].
  exists (String a0 a), (String b0 b), (String c0 c), r3.
  repeat split; try discriminate; try assumption.
  simpl. repeat (rewrite append_assoc; simpl). reflexivity.
Qed.

Lemma search_version_sound (s v : string) :
  search_version s = Some v ->
  exists a b c pre post,
    v = a ++ "." ++ b ++ "." ++ c /\ s = pre ++ v ++ post
    /\ a <> EmptyString /\ b <> EmptyString /\ c <> EmptyString
    /\ digits_only a = true /\ digits_only b = true
    /\ digits_only c = true.
Proof.
  induction s as [|x s IH]; cbn [search_version].
  - destruct (version_at EmptyString) eqn:E; [|discriminate].
    intros [= <-].
    apply version_at_sound in E as (a & b & c & post & Hv & Hs & H).
    now exists a, b, c, EmptyString, post.
  - destruct (version_at (String x s)) eqn:E.
    + intros [= <-].
      apply version_at_sound in E as (a & b & c & post & Hv & Hs & H).
      now exists a, b, c, EmptyString, post.
    + intros H. destruct (IH H) as (a & b & c & pre & post & Hv & -> & H').
      now exists a, b, c, (String x pre), post.
Qed.

(** The version the setup announces is the leftmost run of three dotted
  numbers in the output of the version query; the note about v3 is
  printed exactly when it starts with "3."; and whenever the announced
  version starts with "4.", a probe with the same output makes the
  download paths select the v4 command. *)
Theorem announced_version_agrees_with_probe
    (out : list Adapter.chunk) (returncode : Z)
    (spotdl_ver : string) (warns_v3 : bool)
    (Hannounce :
       announce (Adapter.captured Adapter.Stdout out
                 ++ Adapter.captured Adapter.Stderr out)
       = Installed spotdl_ver warns_v3) :
  (exists a b c pre post,
      spotdl_ver = a ++ "." ++ b ++ "." ++ c
      /\ Adapter.captured Adapter.Stdout out
         ++ Adapter.captured Adapter.Stderr out
         = pre ++ spotdl_ver ++ post
      /\ a <> EmptyString /\ b <> EmptyString /\ c <> EmptyString
      /\ digits_only a = true /\ digits_only b = true
      /\ digits_only c = true)
  /\ warns_v3 = String.prefix "3." spotdl_ver
  /\ (String.prefix "4." spotdl_ver = true ->
      Adapter.detect_is_v4 (Adapter.Runs out returncode) = true).
Proof.
  unfold announce in Hannounce.
  destruct (search_version _) as [v|] eqn:E; [|discriminate].
  injection Hannounce as <- <-.
  pose proof (search_version_sound _ _ E) as Hs.
  split; [exact Hs|]. split; [reflexivity|].
  intros H4. destruct Hs as (a & b & c & pre & post & _ & Hs & _).
  apply prefix_app in H4 as [t Ht].
  unfold Adapter.detect_is_v4. apply contains_spec.
  exists pre, (t ++ post). rewrite Hs, Ht. now rewrite append_assoc.
Qed.

Lemma announced_version_agrees_with_probe_witness :
  let out := [Adapter.Build_chunk "spotdl 4.2.10" Adapter.Stdout true] in
  Adapter.detect_is_v4 (Adapter.Runs out 0) = true.
Proof.
  intros out.
  exact (proj2 (proj2 (announced_version_agrees_with_probe
                         out 0 "4.2.10" false eq_refl)) eq_refl).
Defined.

End SetupFacts.

(** ** Fetching the liked songs *)

Section LikedFacts.

Import Liked.

Lemma take_items_grows (limit : Z) (items : list (attempt string))
    (songs songs' : list string) :
  (Z.of_nat (List.length songs) < limit)%Z ->
  items <> [] ->
  take_items limit songs items = Returns songs' ->
  List.length songs < List.length songs'
  /\ (Z.of_nat (List.length songs') <= limit)%Z.
Proof.
  revert songs. induction items as [|[msg|url] rest IH];
    intros songs Hlt Hne; [contradiction | discriminate |].
  cbn [take_items]. rewrite length_app. cbn [List.length].
  destruct (Z.leb_spec limit (Z.of_nat (List.length songs + 1))) as [Hle|Hgt].
  - intros [= <-]. rewrite length_app. cbn [List.length]. lia.
  - destruct rest as [|item rest].
    + cbn [take_items]. intros [= <-]. rewrite length_app.
      cbn [List.length]. lia.
    + intros H. apply IH in H; [|rewrite length_app; simpl; lia
                                |discriminate].
      rewrite length_app in H. cbn [List.length] in H. lia.
Qed.

(** Whatever the service answers, the loop ends. *)
Lemma fetch_loop_ends (saved_tracks : api) (limit : Z) (fuel : nat)
    (songs : list string) (offset : nat) :
  (limit - Z.of_nat (List.length songs) < Z.of_nat fuel)%Z ->
  (0 < fuel)%nat ->
  exists fetched,
    fetch_loop fuel saved_tracks limit songs offset = Some fetched
    /\ (forall found, fetched = Returns found ->
          (Z.of_nat (List.length found)
           <= Z.max limit (Z.of_nat (List.length songs)))%Z).
Proof.
  revert songs offset. induction fuel as [|fuel IH];
    intros songs offset Hfuel Hpos; [lia|].
  cbn [fetch_loop].
  destruct (Z.ltb_spec (Z.of_nat (List.length songs)) limit) as [Hlt|Hge].
  - destruct (saved_tracks offset) as [msg|[|item items]].
    + eexists. split; [reflexivity | discriminate].
    + eexists. split; [reflexivity|]. intros found [= <-]. lia.
    + destruct (take_items limit songs (item :: items)) as [msg|songs']
        eqn:E.
      * eexists. split; [reflexivity | discriminate].
      * apply take_items_grows in E as [Hgrow Hle];
          [|assumption|discriminate].
        destruct fuel as [|fuel'].
        -- (* the limit is reached: the test ends the loop *)
           exfalso. lia.
        -- destruct (IH songs' (offset + 50)) as (fetched & Hf & Hb);
             [lia | lia |].
           exists fetched. split; [exact Hf|].
           intros found Hfound. specialize (Hb found Hfound). lia.
  - eexists. split; [reflexivity|]. intros found [= <-]. lia.
Qed.

(** Whatever the service answers (also when every page is full and the
  library never ends), the fetch loop is over after at most
  [limit] + 1 page requests, and what it returns holds at most [limit]
  songs; with a limit of zero or less it asks for no page at all and
  the thread reports [No liked songs found]. *)
Theorem fetch_liked_terminates_within_limit
    (saved_tracks : api) (limit : Z) :
  (exists fetched,
      fetch_loop (S (Z.to_nat limit)) saved_tracks limit [] 0
      = Some fetched
      /\ forall found, fetched = Returns found ->
           (Z.of_nat (List.length found) <= Z.max limit 0)%Z)
  /\ ((limit <= 0)%Z ->
      forall fuel,
        fetch_and_download_liked fuel saved_tracks limit
        = Some (App.Completed false "No liked songs found")).
Proof.
  split.
  - destruct (fetch_loop_ends saved_tracks limit (S (Z.to_nat limit)) [] 0)
      as (fetched & Hf & Hb); [simpl List.length; lia | lia |].
    exists fetched. split; [exact Hf | exact Hb].
  - intros Hle fuel. unfold fetch_and_download_liked.
    destruct fuel; cbn [fetch_loop List.length];
      destruct (Z.ltb_spec (Z.of_nat 0) limit); try lia; reflexivity.
Qed.

Lemma take_items_returns (items : list string) (songs : list string)
    (L : nat) :
  List.length songs < L ->
  take_items (Z.of_nat L) songs (map Returns items)
  = Returns (songs ++ firstn (L - List.length songs) items)%list.
Proof.
  revert songs. induction items as [|url rest IH]; intros songs Hlt.
  - cbn [map take_items]. now rewrite firstn_nil, app_nil_r.
  - cbn [map take_items]. rewrite length_app. cbn [List.length].
    destruct (Z.leb_spec (Z.of_nat L) (Z.of_nat (List.length songs + 1)))
      as [Hle|Hgt].
    + replace (L - List.length songs) with 1 by lia. reflexivity.
    + rewrite IH by (rewrite length_app; simpl; lia).
      rewrite length_app. cbn [List.length].
      replace (L - List.length songs)
        with (S (L - (List.length songs + 1))) by lia.
      cbn [firstn]. now rewrite <- app_assoc.
Qed.

Lemma firstn_extend {A : Type} (l : list A) (n m : nat) :
  (firstn n l ++ firstn m (skipn n l))%list = firstn (n + m) l.
Proof.
  revert l. induction n as [|n IH]; intros l; [reflexivity|].
  destruct l as [|x l]; [simpl; now rewrite !firstn_nil|].
  cbn [firstn skipn Nat.add app]. now rewrite IH.
Qed.

Lemma firstn_beyond {A : Type} (l : list A) (n : nat) :
  firstn n l = firstn (Nat.min n (List.length l)) l.
Proof.
  destruct (Nat.le_ge_cases n (List.length l)) as [H|H].
  - now rewrite Nat.min_l.
  - rewrite Nat.min_r by assumption.
    now rewrite firstn_all, firstn_all2.
Qed.

(** The loop over a library, started anywhere it can be. *)
Lemma fetch_loop_library (library : list string) (L fuel n offset : nat) :
  n <= List.length library -> n <= L ->
  n = offset \/ (n = List.length library /\ n <= offset) \/ n = L ->
  L - n < fuel ->
  fetch_loop fuel (library_api library) (Z.of_nat L) (firstn n library)
             offset
  = Some (Returns (firstn L library)).
Proof.
  revert n offset. induction fuel as [|fuel IH];
    intros n offset Hlen HL Hinv Hfuel; [lia|].
  cbn [fetch_loop]. rewrite length_firstn, Nat.min_l by assumption.
  destruct (Z.ltb_spec (Z.of_nat n) (Z.of_nat L)) as [Hlt|Hge];
    [|now replace n with L by lia].
  assert (Hn : n < L) by lia.
  unfold library_api.
  destruct Hinv as [<- | [[-> Hoff] | ->]]; [| |lia].
  - (* every page so far was full *)
    destruct (firstn 50 (skipn n library)) as [|x items] eqn:E.
    + (* the library ends here *)
      cbn [map]. f_equal. f_equal.
      assert (Hs : skipn n library = [])
        by (destruct (skipn n library); [reflexivity | discriminate E]).
      pose proof (firstn_skipn n library) as Hl.
      rewrite Hs, app_nil_r in Hl.
      assert (List.length library <= n)
        by (rewrite <- Hl at 1; apply firstn_le_length).
      now rewrite Hl, firstn_all2 by lia.
    + cbn [map].
      change (Returns x :: map Returns items)
        with (map (@Returns string) (x :: items)).
      rewrite take_items_returns
        by (rewrite length_firstn, Nat.min_l; assumption).
      rewrite length_firstn, Nat.min_l by assumption.
      rewrite <- E.
      rewrite firstn_firstn, firstn_extend.
      assert (Hmore : n < List.length library).
      { assert (Hs : skipn n library <> [])
          by (intros Hs; rewrite Hs in E; discriminate E).
        destruct (Nat.lt_ge_cases n (List.length library)) as [|Hge];
          [assumption|].
        now rewrite skipn_all2 in Hs. }
      rewrite (firstn_beyond library (n + Nat.min (L - n) 50)).
      apply IH; lia.
  - (* the last page was short: the next one is empty *)
    rewrite skipn_all2 by assumption.
    cbn [firstn map]. f_equal. f_equal.
    now rewrite !firstn_all2 by lia.
Qed.

(** When the service is a library of liked songs served in pages of 50,
  the thread hands the batch exactly the first [limit] songs of the
  library, in their order (the whole library when it is shorter), and
  an empty library gives the report [No liked songs found]; the answer
  [all], in any capitalisation, is the limit 9999, so that it leaves out
  what lies beyond the first 9999 songs. *)
Theorem fetch_liked_takes_first_songs (library : list string) (limit : Z) :
  fetch_loop (S (Z.to_nat limit)) (library_api library) limit [] 0
  = Some (Returns (firstn (Z.to_nat limit) library))
  /\ fetch_and_download_liked (S (Z.to_nat limit)) (library_api library)
                              limit
     = Some (match firstn (Z.to_nat limit) library with
             | [] => App.Completed false "No liked songs found"
             | songs => App.LikedFetched songs
             end)
  /\ (forall py_int input st,
        App.spotify_client st = true -> App.is_downloading st = false ->
        PyStr.lower input = "all" ->
        snd (App.download_liked_songs py_int (Some input) st)
        = [App.SetStatus App.Plain "Fetching liked songs...";
           App.StartThread (App.fetch_and_download_liked 9999)]).
Proof.
  assert (H : fetch_loop (S (Z.to_nat limit)) (library_api library) limit
                         [] 0
              = Some (Returns (firstn (Z.to_nat limit) library))).
  { destruct (Z.le_gt_cases limit 0) as [Hle|Hgt].
    - cbn [fetch_loop List.length].
      destruct (Z.ltb_spec (Z.of_nat 0) limit); [lia|].
      now replace (Z.to_nat limit) with 0 by lia.
    - rewrite <- (Z2Nat.id limit) at 2 by lia.
      change (@nil string) with (firstn 0 library).
      apply fetch_loop_library; lia. }
  split; [exact H|]. split.
  - unfold fetch_and_download_liked. rewrite H. cbn [option_map hand_back].
    now destruct (firstn (Z.to_nat limit) library).
  - intros py_int input st Hc Hd Hall. unfold App.download_liked_songs.
    rewrite Hc, Hd, Hall. cbn [negb String.eqb].
    destruct input as [|c input]; [discriminate Hall|].
    reflexivity.
Qed.

End LikedFacts.

(** ** The message of a single download and the warning of a batch *)

Section AdapterMore.

Import Adapter.

Lemma no_control_sub_control (s : string) :
  no_control (Re.sub_control s) = true.
Proof.
  induction s as [|c s IH]; [reflexivity|].
  cbn [Re.sub_control]. destruct (Re.is_control c) eqn:E; [exact IH|].
  cbn [no_control]. now rewrite E, IH.
Qed.

Lemma no_control_lstrip (s : string) :
  no_control s = true -> no_control (PyStr.lstrip s) = true.
Proof.
  induction s as [|c s IH]; [reflexivity|].
  intros H. cbn [PyStr.lstrip]. destruct (PyStr.is_space c); [|exact H].
  cbn [no_control] in H. apply andb_true_iff in H as [_ H]. now apply IH.
Qed.

Lemma no_control_rstrip (s : string) :
  no_control s = true -> no_control (PyStr.rstrip s) = true.
Proof.
  induction s as [|c s IH]; [reflexivity|].
  intros H. cbn [no_control] in H. apply andb_true_iff in H as [Hc H].
  cbn [PyStr.rstrip]. specialize (IH H).
  destruct (PyStr.rstrip s) as [|d r].
  - destruct (PyStr.is_space c); [reflexivity|].
    cbn [no_control]. now rewrite Hc.
  - cbn [no_control] in *. now rewrite Hc, IH.
Qed.

Lemma no_control_clean_line (line : string) :
  no_control (clean_line line) = true.
Proof.
  unfold clean_line, PyStr.strip.
  apply no_control_rstrip, no_control_lstrip, no_control_sub_control.
Qed.

Lemma find_result_msg_step (line : string) (rest : list string) :
  find_result_msg (line :: rest)
  = if is_message (clean_line line) then Some (clean_line line)
    else find_result_msg rest.
Proof. reflexivity. Qed.

(** The search of lines 1246-1254 by itself. *)
Lemma find_result_msg_first_clean_line (output_lines : list string) :
  match find_result_msg output_lines with
  | Some msg =>
      exists before line after,
        output_lines = (before ++ line :: after)%list
        /\ msg = clean_line line
        /\ Forall (fun l => is_message (clean_line l) = false) before
        /\ is_message msg = true
        /\ msg <> EmptyString
        /\ String.length msg < 200
        /\ no_control msg = true
  | None =>
      Forall (fun l => is_message (clean_line l) = false) output_lines
  end.
Proof.
  induction output_lines as [|line rest IH]; [constructor|].
  rewrite find_result_msg_step.
  destruct (is_message (clean_line line)) eqn:E.
  - exists [], line, rest.
    split; [reflexivity|]. split; [reflexivity|].
    split; [constructor|]. split; [exact E|].
    split; [|split].
    + intros H. rewrite H in E. discriminate E.
    + unfold is_message in E.
      apply andb_true_iff in E as [E _].
      apply andb_true_iff in E as [_ E]. now apply Nat.ltb_lt in E.
    + apply no_control_clean_line.
  - destruct (find_result_msg rest) as [msg|].
    + destruct IH as (before & l & after & -> & H1 & H2 & H).
      exists (line :: before), l, after.
      split; [reflexivity|]. split; [exact H1|].
      split; [constructor; assumption | exact H].
    + constructor; assumption.
Qed.

(** The message [download_single_song] returns.  There is none when the
  call finds the flag cleared, on entry or at a line of the output.
  When starting the process raises, it is the text of the exception.
  When the process runs to its end, it is the cleaned form of the first
  output line whose cleaned form is not empty, is shorter than 200
  characters and holds one of the five keywords; it holds no control
  character (so no escape sequence reaches the log); and there is none
  when no line passes that test. *)
Theorem download_single_song_message
    (cfg : config) (w : world) (is_downloading : bool) (url : string) :
  let cmd := build_cmd (detect_is_v4 (w (version_cmd cfg))) cfg url in
  match snd (snd (download_single_song cfg w is_downloading url)) with
  | Some msg =>
      is_downloading = true
      /\ (w cmd = SpawnFails msg
          \/ exists out returncode output_lines before line after,
               w cmd = Runs out returncode
               /\ read_lines out = Some output_lines
               /\ output_lines = (before ++ line :: after)%list
               /\ msg = clean_line line
               /\ Forall (fun l => is_message (clean_line l) = false) before
               /\ is_message msg = true
               /\ msg <> EmptyString
               /\ String.length msg < 200
               /\ no_control msg = true)
  | None =>
      is_downloading = false
      \/ exists out returncode,
           w cmd = Runs out returncode
           /\ (read_lines out = None
               \/ exists output_lines,
                    read_lines out = Some output_lines
                    /\ Forall (fun l => is_message (clean_line l) = false)
                              output_lines)
  end.
Proof.
  intros cmd. unfold download_single_song.
  destruct is_downloading; simpl negb; cbv iota; [|now left].
  fold cmd. destruct (w cmd) as [msg | out returncode] eqn:Ew.
  - cbn [snd]. split; [reflexivity | now left].
  - destruct (read_lines out) as [output_lines|] eqn:Er; cbn [snd].
    + unfold song_verdict. cbn [snd].
      pose proof (find_result_msg_first_clean_line output_lines) as H.
      destruct (find_result_msg output_lines) as [msg|].
      * destruct H as (before & line & after & H).
        split; [reflexivity|]. right.
        exists out, returncode, output_lines, before, line, after.
        split; [reflexivity|]. split; [exact Er | exact H].
      * right. exists out, returncode. split; [reflexivity|].
        right. exists output_lines. split; [exact Er | exact H].
    + right. exists out, returncode. split; [reflexivity|]. now left.
Qed.

Lemma classify_tag_by_lower (o1 o2 : string) (returncode : Z) :
  PyStr.lower o1 = PyStr.lower o2 ->
  fst (classify o1 returncode) = fst (classify o2 returncode).
Proof.
  intros H. unfold classify. rewrite H.
  destruct (_ || _ || _); [reflexivity|].
  destruct (_ || _); [reflexivity|].
  destruct (returncode =? 0)%Z; reflexivity.
Qed.

Lemma skip_marker_redundant (lower : string) :
  PyStr.contains "already downloaded" lower
  || PyStr.contains "skipping" lower
  || (PyStr.contains "oserror" lower
      && PyStr.contains "already downloaded" lower)
  = skip_marker lower.
Proof.
  unfold skip_marker.
  destruct (PyStr.contains "already downloaded" lower);
    destruct (PyStr.contains "skipping" lower);
    destruct (PyStr.contains "oserror" lower); reflexivity.
Qed.

(** The four cases of [classify]. *)
Lemma classify_cases (output : string) (returncode : Z) :
  (skip_marker (PyStr.lower output) = true
   /\ classify output returncode = (skipped, None))
  \/ (skip_marker (PyStr.lower output) = false
      /\ not_found_marker (PyStr.lower output) = true
      /\ exists c detail,
           classify output returncode = (error, Some (String c detail)))
  \/ (skip_marker (PyStr.lower output) = false
      /\ not_found_marker (PyStr.lower output) = false
      /\ returncode = 0%Z
      /\ classify output returncode = (downloaded, None))
  \/ (skip_marker (PyStr.lower output) = false
      /\ not_found_marker (PyStr.lower output) = false
      /\ returncode <> 0%Z
      /\ classify output returncode = (error, None)).
Proof.
  unfold classify. rewrite skip_marker_redundant.
  fold (not_found_marker (PyStr.lower output)).
  destruct (skip_marker (PyStr.lower output)); [now left|].
  right. destruct (not_found_marker (PyStr.lower output)).
  - left. split; [reflexivity|]. split; [reflexivity|].
    destruct (Re.search_quoted output) as [g|] eqn:G.
    + apply search_quoted_sound in G as (Hne & _).
      destruct g as [|c g]; [contradiction|]. now exists c, g.
    + now exists "U"%char, "nknown".
  - right. destruct (Z.eqb_spec returncode 0); [left | right]; auto.
Qed.

(** The classification of the batch path looks at the letters of the
  output without regard to case; it answers [downloaded] only for exit
  status zero and an output without any marker, and a skip marker wins
  over the exit status; the warning [Could not find] is logged exactly
  for an output with a not-found marker and no skip marker, and then
  names a non-empty detail. *)
Theorem classify_edge_behaviour (output : string) (returncode : Z) :
  (forall output',
      PyStr.lower output' = PyStr.lower output ->
      fst (classify output' returncode) = fst (classify output returncode))
  /\ (fst (classify output returncode) = downloaded <->
      returncode = 0%Z
      /\ skip_marker (PyStr.lower output) = false
      /\ not_found_marker (PyStr.lower output) = false)
  /\ (skip_marker (PyStr.lower output) = true ->
      classify output returncode = (skipped, None))
  /\ (could_not_find (classify output returncode) <> None <->
      skip_marker (PyStr.lower output) = false
      /\ not_found_marker (PyStr.lower output) = true)
  /\ (forall warning,
        could_not_find (classify output returncode) = Some warning ->
        exists detail,
          detail <> EmptyString
          /\ warning = "Could not find: " ++ detail
          /\ classify output returncode = (error, Some detail)).
Proof.
  split; [intros o H; now apply classify_tag_by_lower|].
  destruct (classify_cases output returncode)
    as [(Hs & ->) | [(Hs & Hn & c & d & ->)
       | [(Hs & Hn & Hr & ->) | (Hs & Hn & Hr & ->)]]];
    rewrite Hs; try rewrite Hn; cbn [fst could_not_find PyStr.truthy].
  - split; [split; [discriminate | intros (_ & H & _); discriminate H]|].
    split; [reflexivity|].
    split; [split; [intros H; now contradiction H
                   | intros (H & _); discriminate H]|].
    discriminate.
  - split; [split; [discriminate | intros (_ & _ & H); discriminate H]|].
    split; [discriminate|].
    split; [split; [auto | discriminate]|].
    intros w [= <-]. exists (String c d).
    split; [discriminate | split; reflexivity].
  - split; [split; auto|].
    split; [discriminate|].
    split; [split; [intros H; now contradiction H
                   | intros (_ & H); discriminate H]|].
    discriminate.
  - split; [split; [discriminate | intros (H & _); contradiction]|].
    split; [discriminate|].
    split; [split; [intros H; now contradiction H
                   | intros (_ & H); discriminate H]|].
    discriminate.
Qed.

End AdapterMore.

(** ** Validating and routing a url *)

Section UrlFacts.

Import App.

Lemma drop_prefix_sound (p s r : string) :
  drop_prefix p s = Some r -> s = p ++ r.
Proof.
  revert s. induction p as [|a p IH]; intros [|b s]; simpl;
    try discriminate; try (intros [= <-]; reflexivity).
  destruct (Ascii.eqb_spec a b) as [->|]; [|discriminate].
  intros H. now rewrite (IH s H).
Qed.

Lemma drop_prefix_complete (p r : string) : drop_prefix p (p ++ r) = Some r.
Proof.
  induction p as [|a p IH]; simpl; [now destruct r|].
  now rewrite Ascii.eqb_refl.
Qed.

Lemma split_head_no_sep (sep : ascii) (s : string) :
  has_char sep (PyStr.split_head sep s) = false.
Proof.
  induction s as [|c s IH]; [reflexivity|].
  cbn [PyStr.split_head]. destruct (Ascii.eqb c sep) eqn:E; [reflexivity|].
  cbn [has_char]. now rewrite E, IH.
Qed.

Lemma split_head_id (sep : ascii) (s : string) :
  has_char sep s = false -> PyStr.split_head sep s = s.
Proof.
  induction s as [|c s IH]; [reflexivity|].
  cbn [has_char PyStr.split_head]. intros H.
  apply orb_false_iff in H as [Hc Hs]. now rewrite Hc, (IH Hs).
Qed.

Lemma split_head_app (sep : ascii) (s t : string) :
  has_char sep s = false ->
  PyStr.split_head sep (s ++ t) = s ++ PyStr.split_head sep t.
Proof.
  induction s as [|c s IH]; [reflexivity|].
  cbn [has_char append PyStr.split_head]. intros H.
  apply orb_false_iff in H as [Hc Hs]. now rewrite Hc, (IH Hs).
Qed.

Lemma spotify_shape_valid (s : string) :
  has_char "?" s = false -> spotify_shape s -> validate_url s = true.
Proof.
  intros Hq (scheme & kind & c & rest & Hs & Hk & Hc & ->).
  unfold validate_url. rewrite (split_head_id _ _ Hq).
  simpl in Hs, Hk.
  destruct Hs as [<- | [<- | []]];
    destruct Hk as [<- | [<- | [<- | [<- | []]]]];
    simpl; exact Hc.
Qed.

Lemma id_shape (r4 : string) :
  match r4 with
  | String "/"%char (String c _) => is_alnum c
  | _ => false
  end = true ->
  exists c rest, r4 = "/" ++ String c rest /\ is_alnum c = true.
Proof.
  destruct r4 as [|x [|c rest]];
    try destruct x as [[] [] [] [] [] [] [] []];
    intros H; try discriminate H.
  now exists c, rest.
Qed.

Lemma kind_shape (r3 : string) :
  match first_kind ["track"; "album"; "playlist"; "artist"] r3 with
  | Some r4 =>
      match r4 with
      | String "/"%char (String c _) => is_alnum c
      | _ => false
      end
  | None => false
  end = true ->
  exists kind c rest,
    In kind ["track"; "album"; "playlist"; "artist"]
    /\ is_alnum c = true /\ r3 = kind ++ "/" ++ String c rest.
Proof.
  cbn [first_kind].
  destruct (drop_prefix "track" r3) as [r4|] eqn:K1;
    [|destruct (drop_prefix "album" r3) as [r4|] eqn:K2;
      [|destruct (drop_prefix "playlist" r3) as [r4|] eqn:K3;
        [|destruct (drop_prefix "artist" r3) as [r4|] eqn:K4;
          [|discriminate]]]];
    intros H; apply id_shape in H as (c & rest & -> & Hc);
    match goal with K : drop_prefix ?k r3 = Some _ |- _ =>
      apply drop_prefix_sound in K; exists k, c, rest;
      split; [simpl; auto 10 | split; [exact Hc | exact K]]
    end.
Qed.

Lemma valid_spotify_shape (url : string) :
  validate_url url = true -> spotify_shape (clean_url url).
Proof.
  unfold validate_url, clean_url.
  destruct (drop_prefix "http" _) as [r1|] eqn:E1; [|discriminate].
  apply drop_prefix_sound in E1. rewrite E1.
  destruct (drop_prefix "s" r1) as [r|] eqn:Es.
  - apply drop_prefix_sound in Es. subst r1.
    destruct (drop_prefix "://open.spotify.com/" r) as [r3|] eqn:E3;
      [|discriminate].
    apply drop_prefix_sound in E3. subst r.
    intros H. apply kind_shape in H as (k & c & rest & Hk & Hc & ->).
    exists "https", k, c, rest.
    split; [simpl; auto|]. split; [exact Hk|]. split; [exact Hc|].
    reflexivity.
  - destruct (drop_prefix "://open.spotify.com/" r1) as [r3|] eqn:E3;
      [|discriminate].
    apply drop_prefix_sound in E3. subst r1.
    intros H. apply kind_shape in H as (k & c & rest & Hk & Hc & ->).
    exists "http", k, c, rest.
    split; [simpl; auto|]. split; [exact Hk|]. split; [exact Hc|].
    reflexivity.
Qed.

Lemma has_char_app (a : ascii) (s t : string) :
  has_char a (s ++ t) = has_char a s || has_char a t.
Proof.
  induction s as [|c s IH]; [reflexivity|].
  cbn [append has_char]. now rewrite IH, orb_assoc.
Qed.

Lemma validate_url_clean (url : string) :
  validate_url (clean_url url) = validate_url url.
Proof.
  unfold validate_url, clean_url.
  now rewrite (split_head_id _ _ (split_head_no_sep "?" url)).
Qed.

(** [validate_url] accepts exactly the texts whose part before the first
  question mark is http or https, the Spotify host, one of the four
  kinds, a slash and at least one ASCII letter or digit, followed by
  anything: the pattern is not anchored at the end, so any text may
  follow a valid url; the query string plays no part, and [clean_url]
  removes it. *)
Theorem validate_url_accepts_shape (url : string) :
  (validate_url url = true <-> spotify_shape (clean_url url))
  /\ validate_url (clean_url url) = validate_url url
  /\ has_char "?" (clean_url url) = false
  /\ clean_url (clean_url url) = clean_url url
  /\ (validate_url url = true ->
      forall tail, validate_url (clean_url url ++ tail) = true).
Proof.
  assert (Hq : has_char "?" (clean_url url) = false)
    by apply split_head_no_sep.
  split; [|split; [|split; [|split]]].
  - split; [apply valid_spotify_shape|].
    intros H. rewrite <- validate_url_clean.
    now apply spotify_shape_valid.
  - apply validate_url_clean.
  - exact Hq.
  - unfold clean_url. now apply split_head_id.
  - intros Hv tail.
    rewrite <- validate_url_clean. unfold clean_url at 1.
    fold (clean_url url). rewrite (split_head_app _ _ _ Hq).
    apply spotify_shape_valid.
    + rewrite has_char_app, Hq. apply split_head_no_sep.
    + destruct (valid_spotify_shape url Hv)
        as (scheme & kind & c & rest & Hs & Hk & Hc & ->).
      exists scheme, kind, c, (rest ++ PyStr.split_head "?" tail).
      split; [exact Hs|]. split; [exact Hk|]. split; [exact Hc|].
      rewrite !append_assoc. reflexivity.
Qed.

Lemma validate_url_empty : validate_url EmptyString = false.
Proof. reflexivity. Qed.

(** [start_url_download] starts a thread exactly when the stripped entry
  is a valid url, and otherwise leaves the application as it is; the
  thread it starts gets one url, the entry without its query string; a
  valid playlist or album url always goes to [batch_download_worker],
  because the route is chosen by looking for [/playlist/] or [/album/]
  anywhere in the url. *)
Theorem start_url_download_routes (st : app) :
  let url := PyStr.strip (url_entry st) in
  let clean := clean_url url in
  (dispatches (snd (start_url_download st)) = true <->
   validate_url url = true)
  /\ (dispatches (snd (start_url_download st)) = false ->
      fst (start_url_download st) = st)
  /\ (forall t, In (StartThread t) (snd (start_url_download st)) ->
        (t = batch_download_worker [clean] \/ t = download_worker [clean])
        /\ has_char "?" clean = false
        /\ fst (start_url_download st) = set_downloading_state true st)
  /\ (forall scheme kind c rest,
        validate_url url = true ->
        clean = scheme ++ "://open.spotify.com/" ++ kind ++ "/"
                ++ String c rest ->
        kind = "playlist" \/ kind = "album" ->
        In (StartThread (batch_download_worker [clean]))
           (snd (start_url_download st))).
Proof.
  intros url clean. unfold start_url_download. fold url. fold clean.
  destruct (PyStr.truthy url) eqn:Ht; cbn [negb].
  - destruct (validate_url url) eqn:Hv; cbn [negb].
    + split; [|split; [|split]].
      * split; [reflexivity|].
        intros _. now destruct (_ || _).
      * destruct (_ || _); discriminate.
      * intros t Hin.
        assert (Hq : has_char "?" clean = false)
          by apply split_head_no_sep.
        destruct (_ || _); cbn in Hin;
          destruct Hin as [H | [H | [H | []]]]; try discriminate H;
          injection H as <-; auto.
      * intros scheme kind c rest _ Hclean Hkind.
        assert (Hc : PyStr.contains "/playlist/" clean
                     || PyStr.contains "/album/" clean = true).
        { apply orb_true_iff.
          destruct Hkind as [-> | ->]; [left | right];
            apply contains_spec;
            exists (scheme ++ "://open.spotify.com"), (String c rest);
            rewrite Hclean, append_assoc; reflexivity. }
        rewrite Hc. cbn. auto.
    + split; [|split; [|split]].
      * split; discriminate.
      * reflexivity.
      * intros t [H | []]. discriminate H.
      * discriminate.
  - assert (url = EmptyString) by (destruct url; [reflexivity | discriminate]).
    rewrite H. rewrite validate_url_empty.
    split; [|split; [|split]].
    + split; discriminate.
    + reflexivity.
    + intros t [H0 | []]. discriminate H0.
    + discriminate.
Qed.

End UrlFacts.

(** ** The life of a session *)

Section SessionFacts.

Import App.

Lemma set_downloading_state_buttons (downloading : bool) (st : app) :
  session_buttons (set_downloading_state downloading st).
Proof. destruct downloading; split; simpl; auto. Qed.

Lemma handle_session_buttons (e : ui_event) (st : app) :
  session_buttons st -> session_buttons (fst (handle e st)).
Proof.
  intros H. destruct e; cbn [handle].
  - exact H.
  - unfold click. destruct (download_btn st) eqn:Eb; [|exact H].
    unfold start_url_download.
    destruct (negb (PyStr.truthy _)); [exact H|].
    destruct (negb (validate_url _)); [exact H|].
    destruct (_ || _); exact (set_downloading_state_buttons true st).
  - unfold click. destruct (liked_btn st); [|exact H].
    unfold download_liked_songs.
    destruct (negb (spotify_client st)); [exact H|].
    destruct (is_downloading st); [exact H|].
    destruct limit_input as [input|]; [|exact H].
    destruct (negb (PyStr.truthy input)); [exact H|].
    destruct (if String.eqb _ _ then _ else _);
      [exact (set_downloading_state_buttons true st) | exact H].
  - unfold click. destruct (cancel_btn st) eqn:Ec; [|exact H].
    unfold cancel_download. destruct (is_downloading st); [|exact H].
    destruct H as [Hb _]. split; [exact Hb | discriminate].
  - exact H.
  - exact H.
  - exact (set_downloading_state_buttons true st).
  - unfold download_complete.
    destruct success; exact (set_downloading_state_buttons false st).
  - exact H.
Qed.

Lemma run_session_buttons (events : list ui_event) (st : app) :
  session_buttons st -> session_buttons (run events st).
Proof.
  revert st. induction events as [|e events IH]; intros st H; [assumption|].
  simpl. apply IH. now apply handle_session_buttons.
Qed.

(** In every state the application can reach, the cancel button is
  enabled exactly when the download button is disabled, and it is
  enabled while the downloading state is set, so a running download can
  always be cancelled.  [cancel_download] clears the flag and touches no
  button; pressing cancel a second time changes nothing and logs
  nothing; the start buttons come back only with [download_complete],
  which always ends the session, whatever it reports. *)
Theorem session_lifecycle (events : list ui_event) (folder : string) :
  let st := run events (initial folder) in
  session_buttons st
  /\ (let st' := fst (cancel_download st) in
      is_downloading st' = false
      /\ download_btn st' = download_btn st
      /\ liked_btn st' = liked_btn st
      /\ cancel_btn st' = cancel_btn st
      /\ cancel_download st' = (st', []))
  /\ (forall success message,
        let st' := fst (download_complete success message st) in
        is_downloading st' = false
        /\ download_btn st' = true
        /\ cancel_btn st' = false
        /\ liked_btn st' = spotify_client st
        /\ handle ClickCancel st' = (st', [])).
Proof.
  intros st. split; [|split].
  - apply run_session_buttons. split; simpl; [reflexivity | discriminate].
  - unfold cancel_download. destruct (is_downloading st) eqn:E; simpl.
    + repeat split.
    + rewrite E. repeat split.
  - intros success message. unfold download_complete.
    destruct success; simpl; repeat split;
      now destruct (spotify_client st).
Qed.

End SessionFacts.

(** ** The counters of the single-URL path *)

Section SongCounters.

Import Adapter Dispatcher.

Lemma song_tally_snoc (d : list song_result) (r : song_result) :
  song_tally (d ++ [r]) = song_record (song_tally d) r.
Proof. unfold song_tally. now rewrite fold_left_app. Qed.

(** [download_worker] counts every result it takes from the pool as
  processed, counts as completed exactly those whose first component is
  true, and counts as skipped some of the completed ones: skipped never
  exceeds completed, so the number of downloads it reports,
  completed - skipped, is never negative and adds up with skipped to
  completed. *)
Theorem download_worker_counters (recorded : list song_result) :
  let c := song_tally recorded in
  n_processed c = List.length recorded
  /\ n_done c = List.length (filter is_success recorded)
  /\ n_existed c <= n_done c <= n_processed c
  /\ (n_done c - n_existed c) + n_existed c = n_done c.
Proof.
  induction recorded as [|r d IH] using rev_ind.
  - repeat split; simpl; lia.
  - cbv zeta in *. rewrite song_tally_snoc, filter_app, !length_app.
    destruct IH as (H1 & H2 & H3 & H4).
    remember (song_tally d) as c eqn:Ec. clear Ec.
    destruct c as [p dn ex]. cbn [n_processed n_done n_existed] in *.
    unfold song_record, is_success in *.
    destruct r as [[[|]|] msg];
      cbn [fst filter List.length n_processed n_done n_existed];
      try destruct msg as [m|]; try destruct (_ && _);
      cbn [n_processed n_done n_existed]; repeat split; lia.
Qed.

End SongCounters.

(** ** The log queue *)

Section LogFacts.

Import LogQueue.

Lemma drain_app (queue text : list line) :
  drain queue text = (text ++ queue)%list.
Proof.
  revert text. induction queue as [|m queue IH]; intros text; simpl.
  - now rewrite app_nil_r.
  - now rewrite IH, <- app_assoc.
Qed.

(** Whatever the order of calls to [log] and of runs of
  [process_log_queue], the lines shown followed by the lines still
  queued are the lines logged, each once and in the order of the calls;
  a run of [process_log_queue] leaves the queue empty; and a level that
  is not in the table gets the sign of [info]. *)
Theorem log_lines_in_order (ops : list op) :
  let s := fold_left (fun s o => apply_op o s) ops (mk_state [] []) in
  (log_text s ++ log_queue s)%list = logged ops
  /\ log_queue (process_log_queue s) = []
  /\ log_text (process_log_queue s) = logged ops
  /\ (forall level,
        level <> "info" -> level <> "success" -> level <> "error" ->
        level <> "warning" -> prefix_of level = prefix_of "info").
Proof.
  assert (H : forall ops s,
    let s' := fold_left (fun s o => apply_op o s) ops s in
    (log_text s' ++ log_queue s')%list
    = (log_text s ++ log_queue s ++ logged ops)%list).
  { clear ops. induction ops as [|o ops IH]; intros s; cbn [fold_left].
    - cbn [logged]. now rewrite app_nil_r.
    - cbv zeta in *. rewrite IH. destruct o as [t m l|]; cbn.
      + now rewrite <- !app_assoc.
      + now rewrite drain_app, <- app_assoc. }
  intros s. specialize (H ops (mk_state [] [])). cbv zeta in H.
  fold s in H. cbn in H.
  split; [exact H|]. split; [reflexivity|]. split.
  - cbn. now rewrite drain_app.
  - intros level H1 H2 H3 H4. unfold prefix_of.
    apply String.eqb_neq in H1, H2, H3, H4.
    now rewrite H1, H2, H3, H4.
Qed.

End LogFacts.

(** ** More on the pool: after the shutdown, and the progress fraction *)

Section PoolMore.

Import Adapter Dispatcher.

(** Once the loop of either worker function has been left (it has found
  the flag cleared and shut the pool down, or it has ended), no further
  item is taken, whatever becomes of the flag later, and the processes
  still started are those of calls already in progress: at most one for
  each call of [download_single] that has not started its process, at
  most two, the version query and the download, for each call of
  [download_single_song].  In all, a batch of n urls starts at most n
  downloads on the batch path and at most 2n processes on the other.
  A cleared flag by itself does not stop a call that has passed its
  check: [download_single_song] reads the flag at line 1187 and starts
  the download at line 1225 without reading it again, as the last part
  shows. *)
Theorem shutdown_bounds_later_processes :
  (forall cfg urls s t,
      batch_reachable cfg urls s -> pc s <> Draining ->
      batch_steps cfg s t ->
      pending t = [] /\ entered t = entered s
      /\ spawned t <= spawned s + may_start single_budget (running s))
  /\ (forall urls s t,
        song_reachable urls s -> pc s <> Draining -> song_steps s t ->
        pending t = [] /\ entered t = entered s
        /\ spawned t <= spawned s + may_start song_budget (running s))
  /\ (forall cfg urls s,
        batch_reachable cfg urls s -> spawned s <= List.length urls)
  /\ (forall urls s,
        song_reachable urls s -> spawned s <= 2 * List.length urls)
  /\ (let a := "https://open.spotify.com/track/a" in
      let s := mk_state song_result false [] [(a, Built)] 0 [] [] 1
                        Draining in
      let t := mk_state song_result false [] [(a, Started)] 0 [] [] 2
                        Draining in
      song_reachable [a] s /\ song_step s t).
Proof.
  split; [|split; [|split; [|split]]].
  - intros cfg urls s t Hreach Hleft Hlater.
    pose proof (pool_inv_reachable _ _ _ urls s Hreach) as Hinv.
    pose proof (inv_closed _ _ _ _ Hinv Hleft) as Hp.
    destruct (closed_steps _ _ _ s t Hlater Hp) as [Hp' He].
    split; [exact Hp'|]. split; [exact He|].
    pose proof (budget_steps _ _ _ single_budget single_budget_spent
                  s t Hlater) as Hb.
    rewrite Hp, Hp' in Hb. simpl in Hb. lia.
  - intros urls s t Hreach Hleft Hlater.
    pose proof (pool_inv_reachable _ _ _ urls s Hreach) as Hinv.
    pose proof (inv_closed _ _ _ _ Hinv Hleft) as Hp.
    destruct (closed_steps _ _ _ s t Hlater Hp) as [Hp' He].
    split; [exact Hp'|]. split; [exact He|].
    pose proof (budget_steps _ _ _ song_budget song_budget_spent
                  s t Hlater) as Hb.
    rewrite Hp, Hp' in Hb. simpl in Hb. lia.
  - intros cfg urls s Hreach.
    pose proof (budget_steps _ _ _ single_budget single_budget_spent
                  _ s Hreach) as Hb.
    unfold may_start in Hb. simpl in Hb. lia.
  - intros urls s Hreach.
    pose proof (budget_steps _ _ _ song_budget song_budget_spent
                  _ s Hreach) as Hb.
    unfold may_start in Hb. simpl in Hb. lia.
  - intros a s t. split.
    + unfold song_reachable, reachable, init, s.
      eapply steps_cons;
        [apply step_take; unfold single_max_workers; simpl; lia|]. simpl.
      eapply steps_cons;
        [apply (step_call _ _ _ _ _ []); apply song_checked|]. simpl.
      eapply steps_cons;
        [apply (step_call _ _ _ _ _ [] _ _ _ _ _ _ _ _ Probing);
         apply song_probe|]. simpl.
      eapply steps_cons; [apply step_cancel|].
      eapply steps_cons;
        [apply (step_call _ _ _ _ _ []); apply song_probe_over|]. simpl.
      apply steps_refl.
    + unfold song_step, s, t.
      apply (step_call _ _ _ false [] [] a Built [] 0 [] [] 1 Draining
               Started).
      apply song_popen.
Qed.

(** Whenever [batch_download_worker] computes a progress fraction, that
  is after recording a result, the number of urls it divides by is not
  zero and the number of completed items is between 1 and that number;
  a batch without urls records nothing, enters no call of
  [download_single] and starts no download: the version query is the
  one command it runs, and it ends with the report
  [No songs found or downloaded]. *)
Theorem progress_fraction_defined
    (cfg : config) (urls : list string) (s : state result)
    (Hreach : batch_reachable cfg urls s) :
  (drained s <> [] ->
   1 <= n_completed (tally (drained s)) <= List.length urls)
  /\ (urls = [] ->
      drained s = [] /\ entered s = 0 /\ spawned s = 0
      /\ (forall w,
            Trace.batch_download_worker cfg w [] = [Run (version_cmd cfg)])
      /\ final_report (tally (drained s))
         = (false, "No songs found or downloaded")).
Proof.
  pose proof (pool_inv_reachable _ _ _ urls s Hreach) as Hinv.
  pose proof (inv_total _ _ _ _ Hinv) as Ht. unfold entered in Ht.
  rewrite tally_completed. split.
  - intros Hne. destruct (drained s); [contradiction|]. simpl in *. lia.
  - intros ->. simpl in Ht.
    assert (Hd : drained s = [])
      by (destruct (drained s); [reflexivity | simpl in Ht; lia]).
    rewrite Hd. split; [reflexivity|].
    split; [unfold entered; rewrite Hd; simpl; lia|].
    split; [|split; reflexivity].
    pose proof (budget_steps _ _ _ single_budget single_budget_spent
                  _ s Hreach) as Hb.
    unfold may_start in Hb. simpl in Hb. lia.
Qed.

Lemma progress_fraction_defined_witness :
  let cfg := Build_config "python" "/music" "mp3" 2 in
  let a := "https://open.spotify.com/track/a" in
  let s := mk_state result true [] [] 0 [] [(downloaded, None)] 1
                    Draining in
  batch_reachable cfg [a] s
  /\ 1 <= n_completed (tally (drained s)) <= 1.
Proof.
  intros cfg a s.
  assert (Hreach : batch_reachable cfg [a] s).
  { unfold batch_reachable, reachable, init, s.
    eapply steps_cons; [apply step_take; simpl; lia|]. simpl.
    eapply steps_cons;
      [apply (step_call _ _ _ _ _ []); apply single_checked|]. simpl.
    eapply steps_cons;
      [apply (step_call _ _ _ _ _ [] _ _ _ _ _ _ _ _ Started);
       apply single_runs|]. simpl.
    eapply steps_cons;
      [apply (step_finish _ _ _ _ _ []);
       apply (single_classified _ "Downloaded" 0%Z)|]. simpl.
    eapply steps_cons; [apply (step_record _ _ _ _ _ _ [])|]. simpl.
    apply steps_refl. }
  split; [exact Hreach|].
  apply (proj1 (progress_fraction_defined cfg [a] s Hreach)).
  discriminate.
Defined.

End PoolMore.
(** ** Stripping: whitespace around the entry, colour in the output *)

Section TextFacts.

Lemma lstrip_all_space (w : string) :
  all_space w = true -> PyStr.lstrip w = EmptyString.
Proof.
  induction w as [|c w IH]; [reflexivity|].
  cbn [all_space PyStr.lstrip]. intros H.
  apply andb_true_iff in H as [Hc Hw]. now rewrite Hc, IH.
Qed.

Lemma lstrip_space_app (w s : string) :
  all_space w = true -> PyStr.lstrip (w ++ s) = PyStr.lstrip s.
Proof.
  induction w as [|c w IH]; [reflexivity|].
  cbn [all_space append PyStr.lstrip]. intros H.
  apply andb_true_iff in H as [Hc Hw]. now rewrite Hc, IH.
Qed.

Lemma lstrip_app (s w : string) :
  all_space w = true ->
  PyStr.lstrip (s ++ w)
  = if all_space s then EmptyString else PyStr.lstrip s ++ w.
Proof.
  intros Hw. induction s as [|c s IH]; cbn [append all_space].
  - now apply lstrip_all_space.
  - cbn [PyStr.lstrip]. destruct (PyStr.is_space c); [exact IH | reflexivity].
Qed.

Lemma rstrip_all_space (w : string) :
  all_space w = true -> PyStr.rstrip w = EmptyString.
Proof.
  induction w as [|c w IH]; [reflexivity|].
  cbn [all_space PyStr.rstrip]. intros H.
  apply andb_true_iff in H as [Hc Hw]. now rewrite (IH Hw), Hc.
Qed.

Lemma rstrip_app_space (s w : string) :
  all_space w = true -> PyStr.rstrip (s ++ w) = PyStr.rstrip s.
Proof.
  intros Hw. induction s as [|c s IH]; cbn [append].
  - now apply rstrip_all_space.
  - cbn [PyStr.rstrip]. now rewrite IH.
Qed.

Lemma lstrip_empty_all_space (s : string) :
  all_space s = true -> PyStr.rstrip (PyStr.lstrip s) = EmptyString.
Proof. intros H. now rewrite lstrip_all_space. Qed.

Lemma strip_padded (before text after : string) :
  all_space before = true -> all_space after = true ->
  PyStr.strip (before ++ text ++ after) = PyStr.strip text.
Proof.
  intros Hb Ha. unfold PyStr.strip.
  rewrite lstrip_space_app by assumption.
  rewrite lstrip_app by assumption.
  destruct (all_space text) eqn:E.
  - now rewrite lstrip_all_space.
  - now apply rstrip_app_space.
Qed.

(** Whitespace before and after the text typed into the url field plays
  no part: [start_url_download] shows the same dialogs and starts the
  same thread with the same url as for the text alone. *)
Theorem start_url_download_ignores_padding
    (st : App.app) (before after : string)
    (Hbefore : all_space before = true)
    (Hafter : all_space after = true) :
  PyStr.strip (before ++ App.url_entry st ++ after)
  = PyStr.strip (App.url_entry st)
  /\ snd (App.start_url_download
            (with_url_entry (before ++ App.url_entry st ++ after) st))
     = snd (App.start_url_download st).
Proof.
  pose proof (strip_padded before (App.url_entry st) after Hbefore Hafter)
    as Hs.
  split; [exact Hs|].
  unfold App.start_url_download, with_url_entry.
  cbn [App.url_entry]. rewrite Hs.
  destruct (negb (PyStr.truthy _)); [reflexivity|].
  destruct (negb (App.validate_url _)); [reflexivity|].
  destruct (_ || _); reflexivity.
Qed.

Lemma start_url_download_ignores_padding_witness :
  let st := App.mk_app false false true false false
                       "https://open.spotify.com/track/abc" "/music" in
  snd (App.start_url_download
         (with_url_entry ("  " ++ App.url_entry st ++ " ") st))
  = snd (App.start_url_download st).
Proof.
  intros st.
  exact (proj2 (start_url_download_ignores_padding st "  " " "
                  eq_refl eq_refl)).
Defined.

Lemma sgr_params_len_app (params rest : string) :
  all_sgr_params params = true ->
  Re.sgr_params_len (params ++ String "m" rest)
  = Some (S (String.length params)).
Proof.
  induction params as [|c params IH]; [reflexivity|].
  cbn [all_sgr_params append Re.sgr_params_len String.length]. intros H.
  apply andb_true_iff in H as [Hc Hp].
  destruct (Ascii.eqb_spec c "m") as [->|_]; [discriminate Hc|].
  now rewrite Hc, (IH Hp).
Qed.

Lemma sub_ansi_from_skip (dropped rest : string) :
  Re.sub_ansi_from (String.length dropped) (dropped ++ rest)
  = Re.sub_ansi_from 0 rest.
Proof.
  induction dropped as [|c dropped IH]; [reflexivity|].
  cbn [String.length append Re.sub_ansi_from]. exact IH.
Qed.

Lemma sub_ansi_plain_app (plain rest : string) :
  has_char Re.esc plain = false ->
  Re.sub_ansi_from 0 (plain ++ rest) = plain ++ Re.sub_ansi_from 0 rest.
Proof.
  induction plain as [|c plain IH]; [reflexivity|].
  cbn [has_char append Re.sub_ansi_from]. intros H.
  apply orb_false_iff in H as [Hc Hp]. now rewrite Hc, (IH Hp).
Qed.

(** [re.sub] of the colour pattern removes a sequence made of the
  escape character, an opening bracket, digits and semicolons, and the
  letter m, keeps the text before it when that holds no escape
  character, and goes on after it; a text without escape character is
  left as it is. *)
Theorem sub_ansi_removes_colour
    (plain params rest : string)
    (Hplain : has_char Re.esc plain = false)
    (Hparams : all_sgr_params params = true) :
  Re.sub_ansi (plain ++ String Re.esc ("[" ++ params ++ "m" ++ rest))
  = plain ++ Re.sub_ansi rest
  /\ Re.sub_ansi plain = plain.
Proof.
  unfold Re.sub_ansi. split.
  - rewrite sub_ansi_plain_app by assumption. f_equal.
    cbn [Re.sub_ansi_from]. rewrite Ascii.eqb_refl.
    cbn [append Re.sgr_tail_len].
    rewrite sgr_params_len_app by assumption. cbn [option_map].
    change (String "[" (params ++ String "m" rest))
      with ("[" ++ (params ++ String "m" rest)).
    rewrite <- append_assoc.
    change (String "m" rest) with ("m" ++ rest).
    rewrite <- append_assoc.
    replace (S (S (String.length params)))
      with (String.length (("[" ++ params) ++ "m")).
    + apply sub_ansi_from_skip.
    + rewrite !length_append. simpl. lia.
  - clear Hparams. induction plain as [|c plain IH]; [reflexivity|].
    cbn [has_char] in Hplain. apply orb_false_iff in Hplain as [Hc Hp].
    cbn [Re.sub_ansi_from]. now rewrite Hc, (IH Hp).
Qed.

Lemma sub_ansi_removes_colour_witness :
  Re.sub_ansi ("Downloaded " ++ String Re.esc ("[" ++ "1;32" ++ "m" ++ "song"))
  = "Downloaded " ++ Re.sub_ansi "song".
Proof.
  exact (proj1 (sub_ansi_removes_colour "Downloaded " "1;32" "song"
                  eq_refl eq_refl)).
Defined.

End TextFacts.

(** ** Sessions that overlap, and sessions that never end *)

Section SessionMore.

Import App.


(** [cancel_download] does not wait for the worker: it clears the flag
  and leaves the buttons.  With an account connected during the
  download, the liked-songs button is enabled, and after a cancel a
  click on it starts another session, setting the flag again, though
  the worker of the cancelled one has not yet called
  [download_complete]. *)
Theorem cancelled_session_can_overlap
    (events : list ui_event) (folder : string)
    (py_int : string -> option Z) (input : string) (limit : Z)
    (Hdown : is_downloading (run events (initial folder)) = true)
    (Hinput : PyStr.truthy input = true)
    (Hlimit : (if String.eqb (PyStr.lower input) "all" then Some 9999%Z
               else py_int input) = Some limit) :
  let st := run (events ++ [Login; ClickCancel]) (initial folder) in
  is_downloading st = false
  /\ download_btn st = false
  /\ snd (handle (ClickLiked py_int (Some input)) st)
     = [SetStatus Plain "Fetching liked songs...";
        StartThread (fetch_and_download_liked limit)]
  /\ is_downloading (fst (handle (ClickLiked py_int (Some input)) st))
     = true.
Proof.
  intros st.
  assert (Hst : st = run [Login; ClickCancel] (run events (initial folder))).
  { unfold st. generalize (initial folder). clear.
    induction events as [|e events IH]; intros s0; [reflexivity|].
    simpl. apply IH. }
  set (s := run events (initial folder)) in *.
  assert (Hb : session_buttons s).
  { apply run_session_buttons. split; simpl; [reflexivity | discriminate]. }
  destruct Hb as [Hc1 Hc2]. specialize (Hc2 Hdown).
  assert (Hd : download_btn s = false)
    by (rewrite Hc2 in Hc1; now destruct (download_btn s)).
  assert (Est : st = mk_app false true false true true
                          (url_entry s) (output_folder s)).
  { rewrite Hst. cbn [run handle fst]. unfold click, update_account_ui.
    cbn [cancel_btn]. rewrite Hc2. unfold cancel_download.
    cbn [is_downloading]. rewrite Hdown.
    cbn [fst spotify_client download_btn liked_btn cancel_btn url_entry
         output_folder].
    now rewrite Hd. }
  rewrite Est. cbn [handle]. unfold click. cbn [liked_btn].
  unfold download_liked_songs. cbn [spotify_client is_downloading negb].
  rewrite Hinput. cbn [negb]. rewrite Hlimit.
  repeat split.
Qed.

Lemma cancelled_session_can_overlap_witness :
  let events := [TypeUrl "https://open.spotify.com/track/abc";
                 ClickDownload] in
  let st := run (events ++ [Login; ClickCancel]) (initial "/music") in
  snd (handle (ClickLiked (fun _ => Some 5%Z) (Some "5")) st)
  = [SetStatus Plain "Fetching liked songs...";
     StartThread (fetch_and_download_liked 5)].
Proof.
  intros events st.
  exact (proj1 (proj2 (proj2
           (cancelled_session_can_overlap events "/music"
              (fun _ => Some 5%Z) "5" 5%Z eq_refl eq_refl eq_refl)))).
Defined.


End SessionMore.
